(** * Unsmartwatch: the activity recorder and its derived metrics

    A shallow embedding of the recording engine of the running tracker
    ([RunningTracker] in its two variants: the tabbed one and the one with
    the throttled, smoothed pace), with the properties of its geometry, pace,
    heart-rate, lap, stop, reset and GPX routines.

    Number model.  A JavaScript number that is an integer in the program (a
    millisecond timestamp, the seconds counter, a heart rate, a length, an
    index) is a [Z].  A number that carries a measured quantity (a
    coordinate, a distance, a pace) is a real number [R]: [Math.sin],
    [Math.cos], [Math.sqrt] and [Math.atan2] are the real functions, and
    the rounding of IEEE doubles is outside this model.  The properties
    stated in it are equations between what the program computes, or rest on
    the tests the program itself makes.  Where rounding decides a property,
    the haversine term that rounds above 1, the geometry is embedded a
    second time, in [Binary64], over the doubles themselves. *)

From Stdlib Require Import Reals ZArith List String Ascii Bool Lra Lia.
From Stdlib Require Import DecimalString QArith Qround.
From Stdlib Require Floats.
Import ListNotations.

Set Implicit Arguments.

(** * Part I: the program *)

(** ** Numbers of the host language *)

Module Js.

(** Comparisons of reals as the booleans the program branches on. *)
Definition Rgtb (x y : R) : bool := if Rlt_dec y x then true else false.

(** [Math.floor] on a real. *)
Definition Math_floor (x : R) : Z := Int_part x.

(** [Math.round] on a rational: the nearest integer, halves going up. *)
Definition Math_round (q : Q) : Z := Qfloor (q + (1 # 2)).

(** [Math.atan2 y x] on reals: the angle of the point [(x, y)]. *)
Definition Math_atan2 (y x : R) : R :=
  if Rlt_dec 0 x then atan (y / x)
  else if Rlt_dec x 0 then
    if Rle_dec 0 y then atan (y / x) + PI else atan (y / x) - PI
  else if Rlt_dec 0 y then PI / 2
  else if Rlt_dec y 0 then - (PI / 2)
  else 0.

(** [n.toString()] of an integer: its decimal digits, with a sign when
    negative (the integers of the program stay far below the 10^21 from
    which JavaScript prints an exponent). *)
Definition toString (n : Z) : string := NilZero.string_of_int (Z.to_int n).

(** [s.padStart(n, c)] for a one-character pad [c]. *)
Definition padStart (n : nat) (c : ascii) (s : string) : string :=
  let fix pad (k : nat) (acc : string) : string :=
    match k with
    | O => acc
    | S k' => pad k' (String c acc)
    end in
  pad (n - String.length s)%nat s.

(** Truthiness of a [number | null]: [null] and [0] are falsy. *)
Definition truthy (v : option Z) : bool :=
  match v with
  | Some n => negb (n =? 0)%Z
  | None => false
  end.

(** [a || b] on a [number | null] left operand. *)
Definition orElse (a : option Z) (b : Z) : Z :=
  match a with
  | Some n => if (n =? 0)%Z then b else n
  | None => b
  end.

End Js.

(** ** Data model *)

(** [interface Position]. *)
Record Position : Type := mkPosition {
  latitude : R;
  longitude : R;
  longitude_accuracy : option R;
  latitude_accuracy : option R;
  altitude : option R;
  altitude_accuracy : option R;
  timestamp : Z
}.

(** [interface HeartRateData]. *)
Record HeartRateData : Type := mkHeartRateData {
  hr_timestamp : Z;
  heartRate : Z
}.

(** [interface Lap]. *)
Record Lap : Type := mkLap {
  number : Z;
  lap_time : string;
  lap_distance : R;
  pace : string;
  avgHeartRate : option Z
}.

(** [interface Activity]. *)
Record Activity : Type := mkActivity {
  startTime : Z;
  endTime : Z;
  totalTime : Z;
  totalDistance : R;
  act_positions : list Position;
  heartRates : list HeartRateData;
  act_laps : list Lap
}.

(** ** Geometry *)

Open Scope R_scope.

Definition deg2rad (deg : R) : R := deg * (PI / 180).

(** [calculateDistance]: the haversine formula, in kilometres. *)
Definition calculateDistance (pos1 pos2 : Position) : R :=
  let R_earth := 6371 in
  let dLat := deg2rad (latitude pos2 - latitude pos1) in
  let dLon := deg2rad (longitude pos2 - longitude pos1) in
  let a := sin (dLat / 2) * sin (dLat / 2)
           + cos (deg2rad (latitude pos1)) * cos (deg2rad (latitude pos2))
             * sin (dLon / 2) * sin (dLon / 2) in
  let c := 2 * Js.Math_atan2 (sqrt a) (sqrt (1 - a)) in
  R_earth * c.

(** One turn of the loop of [calculateTotalDistance]: [total +=
    calculateDistance(positions[i - 1], positions[i])].  The loop keeps
    [1 <= i < positions.length], so both reads are in range. *)
Definition totalDistance_step (positions : list Position) (total : R) (i : nat) : R :=
  match nth_error positions (i - 1), nth_error positions i with
  | Some p, Some q => total + calculateDistance p q
  | _, _ => total
  end.

(** [calculateTotalDistance]: [for (let i = 1; i < positions.length; i++)]. *)
Definition calculateTotalDistance (positions : list Position) : R :=
  fold_left (totalDistance_step positions)
            (seq 1 (List.length positions - 1)) 0.

(** The sum of [calculateDistance] over the consecutive pairs of a sequence,
    written by recursion on the sequence. *)
Fixpoint sumConsecutive (positions : list Position) : R :=
  match positions with
  | p :: ((q :: _) as rest) => calculateDistance p q + sumConsecutive rest
  | _ => 0
  end.

(** [getRecentPositions]. *)
Definition getRecentPositions (positions : list Position) (seconds : Z) : list Position :=
  if (List.length positions <=? 1)%nat then positions
  else
    match nth_error positions (List.length positions - 1) with
    | Some lastPos =>
        let now := timestamp lastPos in
        let cutoff := (now - seconds * 1000)%Z in
        filter (fun pos => (timestamp pos >=? cutoff)%Z) positions
    | None => positions
    end.

(** ** Heart rate *)

Open Scope Z_scope.

(** The absolute timestamp difference the scan minimises. *)
Definition hrDiff (timestamp : Z) (h : HeartRateData) : Z :=
  Z.abs (timestamp - hr_timestamp h).

(** One turn of the scan of [findClosestHeartRate], on [heartRates[i]]: the
    pair is the running [(closest, minDiff)]. *)
Definition closest_step (timestamp : Z) (acc : HeartRateData * Z) (h : HeartRateData)
  : HeartRateData * Z :=
  let diff := hrDiff timestamp h in
  if diff <? snd acc then (h, diff) else acc.

(** [findClosestHeartRate]: [None] is the [null] of the source. *)
Definition findClosestHeartRate (heartRates : list HeartRateData) (timestamp : Z)
  : option Z :=
  match heartRates with
  | [] => None
  | first :: rest =>
      let '(closest, minDiff) :=
        fold_left (closest_step timestamp) rest (first, hrDiff timestamp first) in
      if minDiff <=? 10000 then Some (heartRate closest) else None
  end.

(** [h], at index [i], is the earliest of the samples nearest to [timestamp]. *)
Definition earliestClosest (heartRates : list HeartRateData) (timestamp : Z)
           (i : nat) (h : HeartRateData) : Prop :=
  nth_error heartRates i = Some h
  /\ (forall j h', nth_error heartRates j = Some h' ->
                   hrDiff timestamp h <= hrDiff timestamp h')
  /\ (forall j h', (j < i)%nat -> nth_error heartRates j = Some h' ->
                   hrDiff timestamp h < hrDiff timestamp h').

(** The unsigned value of a byte. *)
Definition u8 (b : Byte.byte) : Z := Z.of_N (Byte.to_N b).

(** [DataView.getUint8]: [None] is the RangeError of a read out of bounds. *)
Definition getUint8 (value : list Byte.byte) (byteOffset : nat) : option Z :=
  option_map u8 (nth_error value byteOffset).

(** [DataView.getUint16(byteOffset, true)]: little-endian. *)
Definition getUint16_le (value : list Byte.byte) (byteOffset : nat) : option Z :=
  match getUint8 value byteOffset, getUint8 value (S byteOffset) with
  | Some lo, Some hi => Some (Z.lor lo (Z.shiftl hi 8))
  | _, _ => None
  end.

(** The parse of the [characteristicvaluechanged] handler:
    [flags & 0x1 ? value.getUint16(1, true) : value.getUint8(1)]. *)
Definition decodeHeartRate (value : list Byte.byte) : option Z :=
  match getUint8 value 0 with
  | Some flags =>
      if negb (Z.land flags 1 =? 0) then getUint16_le value 1
      else getUint8 value 1
  | None => None
  end.

(** ** Formatting *)

(** [formatTime]: the seconds counter is an integer, so the floors of its
    quotients are integer divisions and [%] is the remainder. *)
Definition formatTime (seconds : Z) : string :=
  let hrs := seconds / 3600 in
  let mins := Z.rem seconds 3600 / 60 in
  let secs := Z.rem seconds 60 in
  if 0 <? hrs then
    (Js.toString hrs ++ ":" ++ Js.padStart 2 "0" (Js.toString mins)
       ++ ":" ++ Js.padStart 2 "0" (Js.toString secs))%string
  else
    (Js.toString mins ++ ":" ++ Js.padStart 2 "0" (Js.toString secs))%string.

(** [formatPace]. *)
Definition formatPace (pace : R) : string :=
  let minutes := Js.Math_floor pace in
  let seconds := Js.Math_floor ((pace - IZR minutes) * 60)%R in
  (Js.toString minutes ++ ":" ++ Js.padStart 2 "0" (Js.toString seconds))%string.

(** What [formatPace] returns for [Infinity]: [Math.floor(Infinity)] is
    [Infinity], the difference [Infinity - Infinity] is [NaN], and so are
    its product by 60 and the floor of that; [padStart] leaves the three
    letters of [NaN] as they are. *)
Definition infinitePace : string := "Infinity:NaN".

(** ** The recorder *)

(** The variables of [RunningTracker] that the recorder reads and writes:
    the [useState] cells, then the [useRef] cells.  [currentHeartRate] is
    the cell [heartRate]; [timerRef] keeps whether [timerRef.current] holds
    an interval handle, the only thing the component asks of it; a watch
    identifier is a positive integer, as the Geolocation API gives it.
    [geoWatches] is not a variable of the component: it is the set of
    watches registered with the geolocation service of the host, from which
    [clearWatch] removes.  [lastPaceUpdateRef] and [recentPacesRef] exist in
    the smoothed variant only; the tabbed variant never touches them.  The
    cells of the presentation (error texts, Bluetooth flags, tabs) are left
    out. *)
Record State : Type := mkState {
  isRunning : bool;
  time : Z;
  distance : R;
  currentPace : string;
  positions : list Position;
  laps : list Lap;
  watchId : option positive;
  currentHeartRate : option Z;
  heartRateData : list HeartRateData;
  activityCompleted : bool;
  activity : option Activity;
  timerRef : bool;
  lastPositionsRef : list Position;
  startTimeRef : option Z;
  lastPaceUpdateRef : Z;
  recentPacesRef : list R;
  geoWatches : list positive
}.

(** The component as first rendered. *)
Definition initialState : State :=
  mkState false 0 0%R "0:00" [] [] None None [] false None
          false [] None 0 [] [].

(** The writes of one cell. *)
Definition set_isRunning (v : bool) (s : State) : State :=
  mkState v (time s) (distance s) (currentPace s) (positions s) (laps s) (watchId s) (currentHeartRate s) (heartRateData s) (activityCompleted s) (activity s) (timerRef s) (lastPositionsRef s) (startTimeRef s) (lastPaceUpdateRef s) (recentPacesRef s) (geoWatches s).

Definition set_time (v : Z) (s : State) : State :=
  mkState (isRunning s) v (distance s) (currentPace s) (positions s) (laps s) (watchId s) (currentHeartRate s) (heartRateData s) (activityCompleted s) (activity s) (timerRef s) (lastPositionsRef s) (startTimeRef s) (lastPaceUpdateRef s) (recentPacesRef s) (geoWatches s).

Definition set_distance (v : R) (s : State) : State :=
  mkState (isRunning s) (time s) v (currentPace s) (positions s) (laps s) (watchId s) (currentHeartRate s) (heartRateData s) (activityCompleted s) (activity s) (timerRef s) (lastPositionsRef s) (startTimeRef s) (lastPaceUpdateRef s) (recentPacesRef s) (geoWatches s).

Definition set_currentPace (v : string) (s : State) : State :=
  mkState (isRunning s) (time s) (distance s) v (positions s) (laps s) (watchId s) (currentHeartRate s) (heartRateData s) (activityCompleted s) (activity s) (timerRef s) (lastPositionsRef s) (startTimeRef s) (lastPaceUpdateRef s) (recentPacesRef s) (geoWatches s).

Definition set_positions (v : list Position) (s : State) : State :=
  mkState (isRunning s) (time s) (distance s) (currentPace s) v (laps s) (watchId s) (currentHeartRate s) (heartRateData s) (activityCompleted s) (activity s) (timerRef s) (lastPositionsRef s) (startTimeRef s) (lastPaceUpdateRef s) (recentPacesRef s) (geoWatches s).

Definition set_laps (v : list Lap) (s : State) : State :=
  mkState (isRunning s) (time s) (distance s) (currentPace s) (positions s) v (watchId s) (currentHeartRate s) (heartRateData s) (activityCompleted s) (activity s) (timerRef s) (lastPositionsRef s) (startTimeRef s) (lastPaceUpdateRef s) (recentPacesRef s) (geoWatches s).

Definition set_currentHeartRate (v : option Z) (s : State) : State :=
  mkState (isRunning s) (time s) (distance s) (currentPace s) (positions s) (laps s) (watchId s) v (heartRateData s) (activityCompleted s) (activity s) (timerRef s) (lastPositionsRef s) (startTimeRef s) (lastPaceUpdateRef s) (recentPacesRef s) (geoWatches s).

Definition set_heartRateData (v : list HeartRateData) (s : State) : State :=
  mkState (isRunning s) (time s) (distance s) (currentPace s) (positions s) (laps s) (watchId s) (currentHeartRate s) v (activityCompleted s) (activity s) (timerRef s) (lastPositionsRef s) (startTimeRef s) (lastPaceUpdateRef s) (recentPacesRef s) (geoWatches s).

Definition set_activity (c : bool) (v : option Activity) (s : State) : State :=
  mkState (isRunning s) (time s) (distance s) (currentPace s) (positions s) (laps s) (watchId s) (currentHeartRate s) (heartRateData s) c v (timerRef s) (lastPositionsRef s) (startTimeRef s) (lastPaceUpdateRef s) (recentPacesRef s) (geoWatches s).

Definition set_timerRef (v : bool) (s : State) : State :=
  mkState (isRunning s) (time s) (distance s) (currentPace s) (positions s) (laps s) (watchId s) (currentHeartRate s) (heartRateData s) (activityCompleted s) (activity s) v (lastPositionsRef s) (startTimeRef s) (lastPaceUpdateRef s) (recentPacesRef s) (geoWatches s).

Definition set_lastPositionsRef (v : list Position) (s : State) : State :=
  mkState (isRunning s) (time s) (distance s) (currentPace s) (positions s) (laps s) (watchId s) (currentHeartRate s) (heartRateData s) (activityCompleted s) (activity s) (timerRef s) v (startTimeRef s) (lastPaceUpdateRef s) (recentPacesRef s) (geoWatches s).

Definition set_startTimeRef (v : option Z) (s : State) : State :=
  mkState (isRunning s) (time s) (distance s) (currentPace s) (positions s) (laps s) (watchId s) (currentHeartRate s) (heartRateData s) (activityCompleted s) (activity s) (timerRef s) (lastPositionsRef s) v (lastPaceUpdateRef s) (recentPacesRef s) (geoWatches s).

Definition set_lastPaceUpdateRef (v : Z) (s : State) : State :=
  mkState (isRunning s) (time s) (distance s) (currentPace s) (positions s) (laps s) (watchId s) (currentHeartRate s) (heartRateData s) (activityCompleted s) (activity s) (timerRef s) (lastPositionsRef s) (startTimeRef s) v (recentPacesRef s) (geoWatches s).

Definition set_recentPacesRef (v : list R) (s : State) : State :=
  mkState (isRunning s) (time s) (distance s) (currentPace s) (positions s) (laps s) (watchId s) (currentHeartRate s) (heartRateData s) (activityCompleted s) (activity s) (timerRef s) (lastPositionsRef s) (startTimeRef s) (lastPaceUpdateRef s) v (geoWatches s).

(** [startStop]. *)
Definition startStop (s : State) : State := set_isRunning (negb (isRunning s)) s.

(** The interval callback: [setTime((prevTime) => prevTime + 1)]. *)
Definition tick (s : State) : State := set_time (time s + 1) s.

(** The mean of [recordLap]: [Math.round(sum / heartRateData.length)] over
    the whole of [heartRateData], [undefined] when it is empty. *)
Definition averageHeartRate (heartRateData : list HeartRateData) : option Z :=
  if (0 <? List.length heartRateData)%nat then
    let sum := fold_left (fun acc data => acc + heartRate data) heartRateData 0 in
    Some (Js.Math_round
            (inject_Z sum / inject_Z (Z.of_nat (List.length heartRateData)))%Q)
  else None.

(** [recordLap]. *)
Definition recordLap (s : State) : State :=
  if negb (isRunning s) then s
  else
    let lapNumber := Z.of_nat (List.length (laps s)) + 1 in
    let lapTime := formatTime (time s) in
    let lapDistance := distance s in
    let lapPace := currentPace s in
    let avg := averageHeartRate (heartRateData s) in
    set_laps (laps s ++ [mkLap lapNumber lapTime lapDistance lapPace avg]) s.

(** The [characteristicvaluechanged] handler at clock [now]; [value] is
    [target.value], and a read out of bounds throws out of the handler
    before any cell is written. *)
Definition onHeartRate (value : option (list Byte.byte)) (now : Z) (s : State) : State :=
  match value with
  | None => s
  | Some v =>
      match decodeHeartRate v with
      | Some rate =>
          set_heartRateData (heartRateData s ++ [mkHeartRateData now rate])
                            (set_currentHeartRate (Some rate) s)
      | None => s
      end
  end.

(** The Activity that the timer effect builds at clock [endTime]. *)
Definition buildActivity (endTime : Z) (s : State) : Activity :=
  mkActivity (Js.orElse (startTimeRef s) (endTime - time s * 1000))
             endTime (time s) (distance s)
             (positions s) (heartRateData s) (laps s).

(** The timer effect, run at clock [now] after a render: while running it
    records the start time once and installs the interval; once stopped,
    and if an interval was ever installed, it prepares the Activity when
    there is data. *)
Definition timerEffect (now : Z) (s : State) : State :=
  if isRunning s then
    let s := match startTimeRef s with
             | None => set_startTimeRef (Some now) s
             | Some _ => s
             end in
    set_timerRef true s
  else if timerRef s then
    if (0 <? time s) && (0 <? List.length (positions s))%nat then
      set_activity true (Some (buildActivity now s)) s
    else s
  else s.

(** What the geolocation service hands to the success callback. *)
Record GeolocationPosition : Type := mkGeolocationPosition {
  coords_latitude : R;
  coords_longitude : R;
  coords_accuracy : R;
  coords_altitude : option R;
  coords_altitudeAccuracy : option R;
  geo_timestamp : Z
}.

(** [x || undefined] on a [number | null]. *)
Definition orUndefined (x : option R) : option R :=
  match x with
  | Some v => if Req_EM_T v 0 then None else Some v
  | None => None
  end.

(** The [newPosition] of the success callback. *)
Definition newPositionOf (position : GeolocationPosition) : Position :=
  mkPosition (coords_latitude position) (coords_longitude position)
             (Some (coords_accuracy position)) (Some (coords_accuracy position))
             (orUndefined (coords_altitude position))
             (orUndefined (coords_altitudeAccuracy position))
             (geo_timestamp position).

(** The minutes between the first and the last fix of a window. *)
Definition windowMinutes (recentPositions : list Position) : option R :=
  match nth_error recentPositions (List.length recentPositions - 1),
        nth_error recentPositions 0 with
  | Some lastPos, Some firstPos =>
      Some (IZR (timestamp lastPos - timestamp firstPos) / 1000 / 60)%R
  | _, _ => None
  end.

(** The updater that the success callback hands to [setPositions]:
    [(prev) => { const updated = [...prev, newPosition];
    lastPositionsRef.current = updated; return updated; }].  React keeps it
    in the queue of the cell and runs it when it renders the component next,
    after the callback has returned. *)
Definition appendPosition (newPosition : Position) (s : State) : State :=
  let updated := positions s ++ [newPosition] in
  set_lastPositionsRef updated (set_positions updated s).

(** *** The smoothed variant *)

Module Smoothed.

(** The history after [push] and the [shift] that follows it. *)
Definition pushPace (recentPaces : list R) (pace : R) : list R :=
  let pushed := recentPaces ++ [pace] in
  if (3 <? List.length pushed)%nat then tl pushed else pushed.

(** [reduce((sum, p) => sum + p, 0) / length]. *)
Definition averagePace (recentPaces : list R) : R :=
  (fold_left Rplus recentPaces 0 / INR (List.length recentPaces))%R.

(** The raw pace of a window, when the window gives one: two fixes or more,
    a positive time and a positive distance. *)
Definition rawPace (recentPositions : list Position) : option R :=
  if (1 <? List.length recentPositions)%nat then
    let recentDistance := calculateTotalDistance recentPositions in
    match windowMinutes recentPositions with
    | Some recentTimeInMinutes =>
        if Js.Rgtb recentTimeInMinutes 0 && Js.Rgtb recentDistance 0
        then Some (recentTimeInMinutes / recentDistance)%R
        else None
    | None => None
    end
  else None.

(** The pace update of the success callback at clock [now], behind its
    throttle. *)
Definition paceUpdate (now : Z) (s : State) : State :=
  if 5000 <? now - lastPaceUpdateRef s then
    let s := set_lastPaceUpdateRef now s in
    match rawPace (getRecentPositions (lastPositionsRef s) 60) with
    | Some pace =>
        let s := set_recentPacesRef (pushPace (recentPacesRef s) pace) s in
        set_currentPace (formatPace (averagePace (recentPacesRef s))) s
    | None => s
    end
  else s.

(** The success callback of [watchPosition], and the render that it
    brings.  [time] is the seconds counter as the closure of the callback
    holds it, [now] is [Date.now()].  The callback hands its updater to
    [setPositions] and goes on: what it reads of [lastPositionsRef.current]
    is what the render before left there, without the new fix.  The
    updater runs in the render that follows the callback. *)
Definition onPosition (time now : Z) (position : GeolocationPosition) (s : State) : State :=
  let newPosition := newPositionOf position in
  let s :=
    if (1 <? List.length (lastPositionsRef s))%nat then
      let newDistance := calculateTotalDistance (lastPositionsRef s) in
      let s := set_distance newDistance s in
      if (0 <? time) && Js.Rgtb newDistance 0 then paceUpdate now s else s
    else s in
  appendPosition newPosition s.

(** [reset]. *)
Definition reset (s : State) : State :=
  mkState false 0 0%R "0:00" [] [] None (currentHeartRate s) [] false None
          (timerRef s) [] None (lastPaceUpdateRef s) []
          (match watchId s with
           | Some id => remove Pos.eq_dec id (geoWatches s)
           | None => geoWatches s
           end).

End Smoothed.

(** *** The tabbed variant *)

Module Tabbed.

(** The pace update of the success callback: a window of 30 seconds, no
    throttle and no history.  The division is by a distance that the code
    does not test: over a window of distance 0 the quotient of the positive
    time is [Infinity], which [formatPace] prints as [infinitePace]. *)
Definition paceUpdate (s : State) : State :=
  let recentPositions := getRecentPositions (lastPositionsRef s) 30 in
  if (1 <? List.length recentPositions)%nat then
    let recentDistance := calculateTotalDistance recentPositions in
    match windowMinutes recentPositions with
    | Some recentTimeInMinutes =>
        if Js.Rgtb recentTimeInMinutes 0 then
          if Req_EM_T recentDistance 0
          then set_currentPace infinitePace s
          else set_currentPace (formatPace (recentTimeInMinutes / recentDistance)%R) s
        else s
    | None => s
    end
  else s.

(** The success callback of [watchPosition], and the render that it
    brings; [time] is the seconds counter as the closure of the callback
    holds it.  As in the smoothed variant, the callback reads
    [lastPositionsRef.current] without the new fix. *)
Definition onPosition (time : Z) (position : GeolocationPosition) (s : State) : State :=
  let newPosition := newPositionOf position in
  let s :=
    if (1 <? List.length (lastPositionsRef s))%nat then
      let newDistance := calculateTotalDistance (lastPositionsRef s) in
      let s := set_distance newDistance s in
      if (0 <? time) && Js.Rgtb newDistance 0 then paceUpdate s else s
    else s in
  appendPosition newPosition s.

(** [reset]: this variant has no pace history to clear. *)
Definition reset (s : State) : State :=
  mkState false 0 0%R "0:00" [] [] None (currentHeartRate s) [] false None
          (timerRef s) [] None (lastPaceUpdateRef s) (recentPacesRef s)
          (match watchId s with
           | Some id => remove Pos.eq_dec id (geoWatches s)
           | None => geoWatches s
           end).

End Tabbed.

(** ** The recorder as a transition system *)

Inductive Variant : Type := TabbedVariant | SmoothedVariant.

(** What reaches the component: a press of a button, a turn of the interval,
    a callback of the geolocation service or of the heart-rate monitor.  A
    fix comes with the seconds counter its callback closes over and with
    the reading of the clock. *)
Inductive Event : Type :=
| PressStartStop
| PressLap
| PressReset
| IntervalTick
| PositionFix (time now : Z) (position : GeolocationPosition)
| PositionError
| HeartRateNotification (value : option (list Byte.byte)) (now : Z).

(** The handlers.  A fix is handled together with the render that follows
    its callback.  The geolocation effect, which registers and clears the
    watch, is not a step of this system: it is embedded on its own below,
    and of [watchId] and [geoWatches] the handlers write only what [reset]
    writes.  A fix can come at any point, with any counter in its closure:
    the system admits every stream of fixes that a watch can deliver, and
    more. *)
Definition handle (v : Variant) (e : Event) (s : State) : State :=
  match e with
  | PressStartStop => startStop s
  | PressLap => recordLap s
  | PressReset =>
      match v with
      | TabbedVariant => Tabbed.reset s
      | SmoothedVariant => Smoothed.reset s
      end
  | IntervalTick => tick s
  | PositionFix time now position =>
      match v with
      | TabbedVariant => Tabbed.onPosition time position s
      | SmoothedVariant => Smoothed.onPosition time now position s
      end
  | PositionError => set_isRunning false s
  | HeartRateNotification value now => onHeartRate value now s
  end.

(** The interval fires only while it is installed and the recorder runs;
    everything else can come at any time. *)
Definition enabled (e : Event) (s : State) : Prop :=
  match e with
  | IntervalTick => isRunning s = true /\ timerRef s = true
  | _ => True
  end.

(** The states of a session: events are handled one at a time, and the
    timer effect runs after renders, at whatever the clock then reads. *)
Inductive reachable (v : Variant) : State -> Prop :=
| reach_initial : reachable v initialState
| reach_event (e : Event) (s : State) :
    reachable v s -> enabled e s -> reachable v (handle v e s)
| reach_effect (now : Z) (s : State) :
    reachable v s -> reachable v (timerEffect now s).

(** ** The GPX document *)

Section Gpx.

(** What the host prints: a number inside a template literal, and
    [new Date(t).toISOString()]. *)
Variable numberToString : R -> string.
Variable toISOString : Z -> string.

Local Open Scope string_scope.

(** The double quote and the line feed. *)
Definition quote : string := String "034" "".
Definition newline : string := String "010" "".

(** [s.split(T)[0]] for the one-letter separator T: what comes before the
    first T. *)
Fixpoint beforeT (s : string) : string :=
  match s with
  | EmptyString => EmptyString
  | String c rest => if Ascii.eqb c "T" then EmptyString else String c (beforeT rest)
  end.

(** The template literal that opens the document. *)
Definition gpxHeader (startDate : string) : string :=
  "<?xml version=" ++ quote ++ "1.0" ++ quote
    ++ " encoding=" ++ quote ++ "UTF-8" ++ quote ++ "?>" ++ newline
    ++ "<gpx creator=" ++ quote ++ "Running Tracker App" ++ quote
    ++ " version=" ++ quote ++ "1.1" ++ quote
    ++ " xmlns=" ++ quote ++ "http://www.topografix.com/GPX/1/1" ++ quote
    ++ ">" ++ newline
    ++ "  <metadata>" ++ newline
    ++ "    <name>Running Activity</name>" ++ newline
    ++ "    <time>" ++ startDate ++ "</time>" ++ newline
    ++ "  </metadata>" ++ newline
    ++ "  <trk>" ++ newline
    ++ "    <name>Running Activity on " ++ beforeT startDate ++ "</name>" ++ newline
    ++ "    <trkseg>" ++ newline.

(** The template literal that closes it. *)
Definition gpxFooter : string :=
  "    </trkseg>" ++ newline ++ "  </trk>" ++ newline ++ "</gpx>".

(** The pieces of a track point, each one [gpx +=] of the source. *)
Definition trkptOpen (pos : Position) : string :=
  "      <trkpt lat=" ++ quote ++ numberToString (latitude pos) ++ quote
    ++ " lon=" ++ quote ++ numberToString (longitude pos) ++ quote
    ++ ">" ++ newline.

Definition eleElement (alt : R) : string :=
  "        <ele>" ++ numberToString alt ++ "</ele>" ++ newline.

Definition timeElement (time : string) : string :=
  "        <time>" ++ time ++ "</time>" ++ newline.

Definition hrExtensions (closestHR : Z) : string :=
  "        <extensions>" ++ newline
    ++ "          <gpxtpx:TrackPointExtension xmlns:gpxtpx=" ++ quote
    ++ "http://www.garmin.com/xmlschemas/TrackPointExtension/v1" ++ quote
    ++ ">" ++ newline
    ++ "            <gpxtpx:hr>" ++ Js.toString closestHR ++ "</gpxtpx:hr>" ++ newline
    ++ "          </gpxtpx:TrackPointExtension>" ++ newline
    ++ "        </extensions>" ++ newline.

Definition trkptClose : string := "      </trkpt>" ++ newline.

(** The body of [activity.positions.forEach]: [gpx] is the document so far.
    The test [if (closestHR)] is for a truthy value: it fails for [null] and
    for the rate 0. *)
Definition appendTrackPoint (heartRates : list HeartRateData) (gpx : string)
           (pos : Position) : string :=
  let time := toISOString (timestamp pos) in
  let gpx := gpx ++ trkptOpen pos in
  let gpx := match altitude pos with
             | Some alt => gpx ++ eleElement alt
             | None => gpx
             end in
  let gpx := gpx ++ timeElement time in
  let closestHR := findClosestHeartRate heartRates (timestamp pos) in
  let gpx := if Js.truthy closestHR then
               match closestHR with
               | Some hr => gpx ++ hrExtensions hr
               | None => gpx
               end
             else gpx in
  gpx ++ trkptClose.

(** [generateGPX]. *)
Definition generateGPX (activity : Activity) : string :=
  let startDate := toISOString (startTime activity) in
  let gpx := gpxHeader startDate in
  let gpx := fold_left (appendTrackPoint (heartRates activity))
                       (act_positions activity) gpx in
  gpx ++ gpxFooter.

(** The children of a track point, in their order: the elevation when the
    fix has an altitude, the time, and the heart-rate extension when the
    nearest sample answers with a rate other than 0. *)
Definition trackPoint (heartRates : list HeartRateData) (pos : Position) : string :=
  trkptOpen pos
    ++ match altitude pos with
       | Some alt => eleElement alt
       | None => ""
       end
    ++ timeElement (toISOString (timestamp pos))
    ++ match findClosestHeartRate heartRates (timestamp pos) with
       | Some hr => if (hr =? 0)%Z then "" else hrExtensions hr
       | None => ""
       end
    ++ trkptClose.

End Gpx.

(** ** The geometry over IEEE doubles *)

(** [calculateDistance] and [calculateTotalDistance] once more, on the
    doubles of the engine: the arithmetic and [Math.sqrt] are the IEEE
    operations, [Math.PI] is the double nearest to pi, and [Math.sin],
    [Math.cos] and [Math.atan2], which the language leaves to the engine to
    approximate, are parameters. *)
Module Binary64.

Import PrimFloat.
Local Open Scope float_scope.

(** The coordinates of a fix. *)
Record Fix : Type := mkFix {
  lat : float;
  lon : float
}.

Section Engine.

Variables Math_sin Math_cos : float -> float.
Variable Math_atan2 : float -> float -> float.

Definition Math_PI : float := 0x1.921fb54442d18p+1.

Definition deg2rad (deg : float) : float := deg * (Math_PI / 180).

Definition calculateDistance (pos1 pos2 : Fix) : float :=
  let R_earth := 6371 in
  let dLat := deg2rad (lat pos2 - lat pos1) in
  let dLon := deg2rad (lon pos2 - lon pos1) in
  let a := Math_sin (dLat / 2) * Math_sin (dLat / 2)
           + Math_cos (deg2rad (lat pos1)) * Math_cos (deg2rad (lat pos2))
             * Math_sin (dLon / 2) * Math_sin (dLon / 2) in
  let c := 2 * Math_atan2 (sqrt a) (sqrt (1 - a)) in
  R_earth * c.

Definition totalDistance_step (positions : list Fix) (total : float) (i : nat) : float :=
  match nth_error positions (i - 1), nth_error positions i with
  | Some p, Some q => total + calculateDistance p q
  | _, _ => total
  end.

Definition calculateTotalDistance (positions : list Fix) : float :=
  fold_left (totalDistance_step positions)
            (seq 1 (List.length positions - 1)) 0.

End Engine.

(** An engine at the arguments that the distance from 8 N 0 E to 8 S 180 E
    asks for, and nowhere else: for the sine, the half of the difference of
    the latitudes and the half of the difference of the longitudes, in
    radians; for the cosine, the two latitudes; and for [Math.atan2] its one
    call, whose second argument is not a number. *)
Definition sinAtExample (x : float) : float :=
  if x =? -0x1.1df46a2529d39p-3 then -0x1.1d06c968d9e19p-3
  else if x =? 0x1.921fb54442d18p+0 then 1
  else nan.

Definition cosAtExample (x : float) : float :=
  if abs x =? 0x1.1df46a2529d39p-3 then 0x1.fb046a930947ap-1 else nan.

Definition atan2AtExample (y x : float) : float := nan.

End Binary64.

(** ** Notions of the properties *)

(** What the scan knows after the samples [seen]. *)
Definition scanInv (timestamp : Z) (seen : list HeartRateData) (acc : HeartRateData * Z) : Prop :=
  snd acc = hrDiff timestamp (fst acc)
  /\ exists i, earliestClosest seen timestamp i (fst acc).

(** The laps carry the ordinals 1, 2, 3, ... in order. *)
Definition lapsNumbered (laps : list Lap) : Prop :=
  forall i lap, nth_error laps i = Some lap -> number lap = Z.of_nat i + 1.

(** What holds of every state of a session. *)
Record Inv (s : State) : Prop := mkInv {
  inv_time : 0 <= time s;
  inv_timer : 0 < time s -> timerRef s = true;
  inv_activity : activity s <> None -> 0 < time s /\ positions s <> [];
  inv_completed :
    activityCompleted s = match activity s with Some _ => true | None => false end;
  inv_laps : lapsNumbered (laps s);
  inv_paces : (List.length (recentPacesRef s) <= 3)%nat;
  inv_lastPositions : lastPositionsRef s = positions s
}.

(** The tests that stand between a fix and the pace update of the smoothed
    variant: two fixes or more before this one, a counter above 0, a total
    distance above 0, and more than 5000 ms of clock since the update
    before. *)
Definition paceGuards (time now : Z) (s : State) : Prop :=
  (1 < List.length (lastPositionsRef s))%nat
  /\ 0 < time
  /\ (0 < calculateTotalDistance (lastPositionsRef s))%R
  /\ 5000 < now - lastPaceUpdateRef s.

(** The sum of the rates of a sequence of samples. *)
Definition sumHeartRates (heartRateData : list HeartRateData) : Z :=
  fold_right Z.add 0 (map heartRate heartRateData).

(** [s'] comes after [s] in a session. *)
Inductive evolves (v : Variant) : State -> State -> Prop :=
| evolves_refl (s : State) : evolves v s s
| evolves_event (e : Event) (s s' : State) :
    evolves v s s' -> enabled e s' -> evolves v s (handle v e s')
| evolves_effect (now : Z) (s s' : State) :
    evolves v s s' -> evolves v s (timerEffect now s').

(** A session handles its events in order. *)
Definition run (v : Variant) (events : list Event) (s : State) : State :=
  fold_left (fun s e => handle v e s) events s.

(** The events that are fixes. *)
Definition isPositionFix (e : Event) : Prop :=
  match e with
  | PositionFix _ _ _ => True
  | _ => False
  end.

(** ** Example sessions *)

(** A short session: start, the first render's effect at clock 1000, one
    fix, one turn of the interval. *)
Definition runningExample : State :=
  handle SmoothedVariant IntervalTick
    (handle SmoothedVariant
       (PositionFix 0 1500 (mkGeolocationPosition 0 0 5 None None 1500))
       (timerEffect 1000 (handle SmoothedVariant PressStartStop initialState))).

(** The session of [runningExample] with a sample of 100 bpm, a lap, a
    sample of 200 bpm and a second lap. *)
Definition twoLapsExample : State :=
  handle SmoothedVariant
    (HeartRateNotification (Some [Byte.x00; Byte.xc8]) 1900)
    (handle SmoothedVariant PressLap
       (handle SmoothedVariant
          (HeartRateNotification (Some [Byte.x00; Byte.x64]) 1700)
          runningExample)).

(** A recorder that ran for ten seconds without a fix, was paused and is
    running again, half a second before the first fix of the streams below:
    the callbacks of its new watch hold the counter 10. *)
Definition resumedExample : State :=
  timerEffect 1699999999500
    (startStop
       (timerEffect 1699999997500
          (startStop
             (Nat.iter 10 tick
                (timerEffect 1699999987000 (startStop initialState)))))).

(** A fix on the equator. *)
Definition equatorFix (lon : R) (ts : Z) : GeolocationPosition :=
  mkGeolocationPosition 0 lon 5 None None ts.

Definition fixA : GeolocationPosition := equatorFix 0 1700000000000.
Definition fixB : GeolocationPosition := equatorFix (3 / 100000) 1700000000900.
Definition fixC : GeolocationPosition := equatorFix (1003 / 100000) 1700000001800.
Definition fixD : GeolocationPosition := equatorFix (1006 / 100000) 1700000002700.

(** The first three fixes of a stream, one every 900 ms, each delivered at
    the time it was taken, so that the interval, which every render sets
    anew, does not turn between them: 3.3 m, then a jump of 1.1 km. *)
Definition firstFixes : list Event :=
  [ PositionFix 10 1700000000000 fixA;
    PositionFix 10 1700000000900 fixB;
    PositionFix 10 1700000001800 fixC ].

(** The stream with its fourth fix. *)
Definition divergingFixes : list Event :=
  firstFixes ++ [ PositionFix 10 1700000002700 fixD ].



(** A recording of twenty seconds with one fix and one heart-rate sample
    taken at the same instant, the sample reading 0 bpm (what the handler
    stores for the notification of bytes 00 00). *)
Definition zeroRateActivity : Activity :=
  mkActivity 1700000000000 1700000020000 20 0%R
             [mkPosition 0 0 (Some 5%R) (Some 5%R) None None 1700000005000]
             [mkHeartRateData 1700000005000 0]
             [].

(** ** Further notions *)

(** The timestamps of a sequence of fixes never go back. *)
Fixpoint timestampsAscend (positions : list Position) : Prop :=
  match positions with
  | p :: ((q :: _) as rest) => timestamp p <= timestamp q /\ timestampsAscend rest
  | _ => True
  end.

(** A step of a session: an event that is handled, or a run of the timer
    effect at some reading of the clock. *)
Inductive Step : Type :=
| StepEvent (e : Event)
| StepEffect (now : Z).

Definition perform (v : Variant) (step : Step) (s : State) : State :=
  match step with
  | StepEvent e => handle v e s
  | StepEffect now => timerEffect now s
  end.

(** A session performs its steps in order. *)
Definition session (v : Variant) (steps : list Step) (s : State) : State :=
  fold_left (fun s step => perform v step s) steps s.

(** A lap, and an Activity, without the pace strings of the laps. *)
Definition lapSansPace (l : Lap) : Z * string * R * option Z :=
  (number l, lap_time l, lap_distance l, avgHeartRate l).

Definition activitySansPace (a : Activity)
  : Z * Z * Z * R * list Position * list HeartRateData
    * list (Z * string * R * option Z) :=
  (startTime a, endTime a, totalTime a, totalDistance a,
   act_positions a, heartRates a, map lapSansPace (act_laps a)).

(** The recorder without what the pace pipeline owns: the displayed pace,
    the clock of the throttle, the history, and the pace strings of the
    laps. *)
Definition sansPace (s : State) :=
  (isRunning s, time s, distance s, positions s, map lapSansPace (laps s),
   currentHeartRate s, heartRateData s, activityCompleted s,
   option_map activitySansPace (activity s), timerRef s,
   lastPositionsRef s, startTimeRef s).

(** What the callback on a fix does to the recorder without its pace: the
    distance is taken over the fixes before the new one, and the render
    appends the new one. *)
Definition fixSansPace (position : GeolocationPosition) (s : State) : State :=
  let s := if (1 <? List.length (lastPositionsRef s))%nat
           then set_distance (calculateTotalDistance (lastPositionsRef s)) s
           else s in
  appendPosition (newPositionOf position) s.

(** The three cells of the pace pipeline, written at once. *)
Definition paceCells (p : string) (l : Z) (r : list R) (s : State) : State :=
  set_currentPace p (set_recentPacesRef r (set_lastPaceUpdateRef l s)).

(** The Activity of a session is consistent with the recorder that holds
    it: its distance is the distance over its fixes but the last, it has a
    fix and a positive time, its laps are numbered, and its time, fixes,
    samples and laps are where the recorder was when it was built. *)
Definition activityConsistent (s : State) (a : Activity) : Prop :=
  totalDistance a = calculateTotalDistance (removelast (act_positions a))
  /\ act_positions a <> []
  /\ 0 < totalTime a <= time s
  /\ lapsNumbered (act_laps a)
  /\ (exists more, positions s = act_positions a ++ more)
  /\ (exists more, heartRateData s = heartRates a ++ more)
  /\ (exists more, laps s = act_laps a ++ more).

(** A stretch of a session in which reset is not pressed. *)
Definition noReset (steps : list Step) : Prop :=
  Forall (fun step => step <> StepEvent PressReset) steps.

(** [l'] is [l] with something appended. *)
Definition extends (A : Type) (l l' : list A) : Prop := exists more, l' = l ++ more.

(** The pace that belongs on display for a history: the mean of the
    history, formatted, and the first rendering's 0:00 for none. *)
Definition displayedPaceOf (recentPaces : list R) : string :=
  match recentPaces with
  | [] => "0:00"%string
  | _ :: _ => formatPace (Smoothed.averagePace recentPaces)
  end.

(** Two decimal digits. *)
Definition twoDigits (z : Z) : string :=
  (Js.toString (z / 10) ++ Js.toString (z mod 10))%string.

(** ** The geolocation effect *)

Definition set_watchId (v : option positive) (s : State) : State :=
  mkState (isRunning s) (time s) (distance s) (currentPace s) (positions s) (laps s) v (currentHeartRate s) (heartRateData s) (activityCompleted s) (activity s) (timerRef s) (lastPositionsRef s) (startTimeRef s) (lastPaceUpdateRef s) (recentPacesRef s) (geoWatches s).

Definition set_geoWatches (v : list positive) (s : State) : State :=
  mkState (isRunning s) (time s) (distance s) (currentPace s) (positions s) (laps s) (watchId s) (currentHeartRate s) (heartRateData s) (activityCompleted s) (activity s) (timerRef s) (lastPositionsRef s) (startTimeRef s) (lastPaceUpdateRef s) (recentPacesRef s) v.

(** [navigator.geolocation.clearWatch(id)]. *)
Definition clearWatch (id : positive) (s : State) : State :=
  set_geoWatches (remove Pos.eq_dec id (geoWatches s)) s.

(** The body of the geolocation effect, with a geolocation service present;
    [id] is what [watchPosition] returns should the body call it. *)
Definition geolocationEffect (id : positive) (s : State) : State :=
  match isRunning s, watchId s with
  | true, None => set_watchId (Some id) (set_geoWatches (id :: geoWatches s) s)
  | false, Some w => set_watchId None (clearWatch w s)
  | _, _ => s
  end.

(** The cleanup that the effect returns; [watchId] is the one of the render
    that made it. *)
Definition geolocationCleanup (watchId : option positive) (s : State) : State :=
  match watchId with
  | Some w => clearWatch w s
  | None => s
  end.

(** What the last run of the effect saw of its render: the dependencies, of
    which [run_watchId] is also what its cleanup holds. *)
Record EffectRun : Type := mkEffectRun {
  run_isRunning : bool;
  run_watchId : option positive;
  run_time : Z
}.

(** The dependency array is [isRunning, watchId] in the tabbed variant and
    [isRunning, watchId, time] in the smoothed one. *)
Definition depsChanged (v : Variant) (last : EffectRun) (s : State) : bool :=
  negb (Bool.eqb (run_isRunning last) (isRunning s))
  || negb (match run_watchId last, watchId s with
           | Some a, Some b => Pos.eqb a b
           | None, None => true
           | _, _ => false
           end)
  || match v with
     | TabbedVariant => false
     | SmoothedVariant => negb (run_time last =? time s)
     end.

(** The effect after the render of [s]: on the first render the body runs;
    afterwards, when a dependency has changed, the cleanup of the last run
    and then the body. *)
Definition commitGeolocation (v : Variant) (last : option EffectRun)
           (id : positive) (s : State) : State * option EffectRun :=
  let this := Some (mkEffectRun (isRunning s) (watchId s) (time s)) in
  match last with
  | None => (geolocationEffect id s, this)
  | Some r =>
      if depsChanged v r s
      then (geolocationEffect id (geolocationCleanup (run_watchId r) s), this)
      else (s, last)
  end.

(** A recorder is started, its watch is registered, the render that the
    registration brings is committed, and the interval turns once. *)
Definition startThenTick (v : Variant) (last : option EffectRun)
           (id id2 id3 : positive) (s : State) : State :=
  let (s1, r1) := commitGeolocation v last id s in
  let (s2, r2) := commitGeolocation v r1 id2 s1 in
  fst (commitGeolocation v r2 id3 (tick s2)).

(** ** Counting the steps of a session *)

Definition isTickStep (step : Step) : bool :=
  match step with
  | StepEvent IntervalTick => true
  | _ => false
  end.

Definition isFixStep (step : Step) : bool :=
  match step with
  | StepEvent (PositionFix _ _ _) => true
  | _ => false
  end.

(** The distance of a lap is the total distance over the first fixes of
    [fixes], the last fix not among them. *)
Definition lapOverPrefix (fixes : list Position) (lap : Lap) : Prop :=
  exists n,
    (n <= List.length fixes - 1)%nat
    /\ lap_distance lap = calculateTotalDistance (firstn n fixes).

(** * Part II: the properties *)

(** ** Geometry: facts *)

Section GeometryFacts.

Local Open Scope R_scope.

Lemma calculateDistance_same (p : Position) : calculateDistance p p = 0.
Proof.
  unfold calculateDistance, deg2rad. cbv zeta.
  replace (latitude p - latitude p) with 0 by ring.
  replace (longitude p - longitude p) with 0 by ring.
  replace (0 * (PI / 180) / 2) with 0 by field.
  rewrite sin_0.
  match goal with
  | |- context [sqrt ?a] =>
      replace a with 0 by ring
  end.
  rewrite Rminus_0_r, sqrt_0, sqrt_1.
  unfold Js.Math_atan2.
  destruct (Rlt_dec 0 1) as [_|H]; [|lra].
  replace (0 / 1) with 0 by field.
  rewrite atan_0. ring.
Qed.

(** A loop whose body agrees on the indices it visits computes the same. *)
Lemma fold_left_agree (A B : Type) (f g : A -> B -> A) (l : list B) (a : A) :
  (forall x b, In b l -> f x b = g x b) ->
  fold_left f l a = fold_left g l a.
Proof.
  revert a. induction l as [|b l IH]; intros a H; simpl.
  - reflexivity.
  - rewrite (H a b (or_introl eq_refl)).
    apply IH. intros x b' Hin. apply H. right. exact Hin.
Qed.

(** The loop, one fix later: it has one more turn, which adds the distance
    from the previous last fix to the new one. *)
Lemma calculateTotalDistance_snoc (l : list Position) (q p : Position) :
  calculateTotalDistance ((l ++ [q]) ++ [p])
  = calculateTotalDistance (l ++ [q]) + calculateDistance q p.
Proof.
  assert (Hq : nth_error ((l ++ [q]) ++ [p]) (List.length l) = Some q).
  { rewrite nth_error_app1 by (rewrite length_app; simpl; lia).
    rewrite nth_error_app2 by lia. rewrite Nat.sub_diag. reflexivity. }
  assert (Hp : nth_error ((l ++ [q]) ++ [p]) (S (List.length l)) = Some p).
  { rewrite nth_error_app2 by (rewrite length_app; simpl; lia).
    rewrite length_app. simpl List.length.
    replace (S (List.length l) - (List.length l + 1))%nat with O by lia.
    reflexivity. }
  unfold calculateTotalDistance.
  replace (List.length ((l ++ [q]) ++ [p]) - 1)%nat
    with (List.length l + 1)%nat by (rewrite !length_app; simpl; lia).
  replace (List.length (l ++ [q]) - 1)%nat
    with (List.length l) by (rewrite length_app; simpl; lia).
  rewrite seq_app, fold_left_app.
  change (seq (1 + List.length l) 1) with [S (List.length l)].
  cbn [fold_left]. unfold totalDistance_step at 1.
  replace (S (List.length l) - 1)%nat with (List.length l) by lia.
  rewrite Hq, Hp. f_equal.
  apply fold_left_agree. intros x i Hin.
  apply in_seq in Hin. unfold totalDistance_step.
  rewrite !(nth_error_app1 (l ++ [q]) [p])
    by (rewrite length_app; simpl; lia).
  reflexivity.
Qed.

Lemma sumConsecutive_snoc (l : list Position) (q p : Position) :
  sumConsecutive ((l ++ [q]) ++ [p])
  = sumConsecutive (l ++ [q]) + calculateDistance q p.
Proof.
  induction l as [|a l IH].
  - simpl. ring.
  - destruct l as [|b l].
    + simpl. ring.
    + change (sumConsecutive (((a :: b :: l) ++ [q]) ++ [p]))
        with (calculateDistance a b + sumConsecutive (((b :: l) ++ [q]) ++ [p])).
      change (sumConsecutive ((a :: b :: l) ++ [q]))
        with (calculateDistance a b + sumConsecutive ((b :: l) ++ [q])).
      rewrite IH. ring.
Qed.

(** The loop computes the sum over the consecutive pairs. *)
Lemma calculateTotalDistance_sum (l : list Position) :
  calculateTotalDistance l = sumConsecutive l.
Proof.
  induction l as [|p l IH] using rev_ind.
  - reflexivity.
  - destruct l as [|q l _] using rev_ind.
    + reflexivity.
    + rewrite calculateTotalDistance_snoc, sumConsecutive_snoc, IH.
      reflexivity.
Qed.

(** C5: no fix or one fix gives 0; the loop of [calculateTotalDistance]
    computes the sum of the haversine distance (Earth radius 6371 km) over
    the consecutive pairs of the sequence; a fix at the place of the one
    before it has distance 0 to it and leaves the total as it was. *)
Theorem C5_total_distance :
  calculateTotalDistance [] = 0
  /\ (forall p, calculateTotalDistance [p] = 0)
  /\ (forall l, calculateTotalDistance l = sumConsecutive l)
  /\ (forall p q,
        calculateDistance p q
        = 6371 * (2 * Js.Math_atan2
                        (sqrt (sin (deg2rad (latitude q - latitude p) / 2)
                               * sin (deg2rad (latitude q - latitude p) / 2)
                               + cos (deg2rad (latitude p))
                                 * cos (deg2rad (latitude q))
                                 * sin (deg2rad (longitude q - longitude p) / 2)
                                 * sin (deg2rad (longitude q - longitude p) / 2)))
                        (sqrt (1 - (sin (deg2rad (latitude q - latitude p) / 2)
                                    * sin (deg2rad (latitude q - latitude p) / 2)
                                    + cos (deg2rad (latitude p))
                                      * cos (deg2rad (latitude q))
                                      * sin (deg2rad (longitude q - longitude p) / 2)
                                      * sin (deg2rad (longitude q - longitude p) / 2))))))
  /\ (forall p, calculateDistance p p = 0)
  /\ (forall l p,
        calculateTotalDistance ((l ++ [p]) ++ [p])
        = calculateTotalDistance (l ++ [p])).
Proof.
  split; [reflexivity|].
  split; [intros p; reflexivity|].
  split; [exact calculateTotalDistance_sum|].
  split; [intros p q; reflexivity|].
  split; [exact calculateDistance_same|].
  intros l p.
  rewrite calculateTotalDistance_snoc, calculateDistance_same. ring.
Qed.

End GeometryFacts.

(** ** The geometry over IEEE doubles: facts *)

Section Binary64Facts.

Import PrimFloat.
Local Open Scope float_scope.

(** C10: appending a fix can turn the total distance into NaN, which no
    comparison holds of.  From 8 N 0 E to 8 S 180 E, with an engine whose
    sine and cosine return the doubles nearest to the true values at the
    four arguments the formula asks for, and whose [Math.atan2] answers NaN
    to a NaN as the language prescribes: the haversine term comes out as
    1.0000000000000002, the square root of 1 minus the term is NaN, and so
    are the distance and the total over the two fixes, while the total over
    the first fix alone is 0.  Neither [total(l ++ [p]) >= total(l)] nor
    [calculateDistance(..) >= 0] holds there. *)
Theorem C10_antipodal_NaN
        (Math_sin Math_cos : float -> float) (Math_atan2 : float -> float -> float) :
  Math_sin (-0x1.1df46a2529d39p-3) = -0x1.1d06c968d9e19p-3 ->
  Math_sin 0x1.921fb54442d18p+0 = 1 ->
  Math_cos 0x1.1df46a2529d39p-3 = 0x1.fb046a930947ap-1 ->
  Math_cos (-0x1.1df46a2529d39p-3) = 0x1.fb046a930947ap-1 ->
  (forall y, Math_atan2 y nan = nan) ->
  let calculateDistance :=
    Binary64.calculateDistance Math_sin Math_cos Math_atan2 in
  let calculateTotalDistance :=
    Binary64.calculateTotalDistance Math_sin Math_cos Math_atan2 in
  let l := [Binary64.mkFix 8 0] in
  let p := Binary64.mkFix (-8) 180 in
  Binary64.deg2rad (-8 - 8) / 2 = -0x1.1df46a2529d39p-3
  /\ Binary64.deg2rad 8 = 0x1.1df46a2529d39p-3
  /\ Binary64.deg2rad (180 - 0) / 2 = 0x1.921fb54442d18p+0
  /\ -0x1.1d06c968d9e19p-3 * -0x1.1d06c968d9e19p-3
     + 0x1.fb046a930947ap-1 * 0x1.fb046a930947ap-1 * 1 * 1
     = 0x1.0000000000001p+0
  /\ sqrt (1 - 0x1.0000000000001p+0) = nan
  /\ calculateDistance (Binary64.mkFix 8 0) p = nan
  /\ calculateTotalDistance l = 0
  /\ calculateTotalDistance (l ++ [p]) = nan
  /\ (calculateTotalDistance l <=? calculateTotalDistance (l ++ [p])) = false
  /\ (0 <=? calculateDistance (Binary64.mkFix 8 0) p) = false.
Proof.
  intros Hsin1 Hsin2 Hcos1 Hcos2 Hnan. cbv zeta.
  assert (Hd : Binary64.calculateDistance Math_sin Math_cos Math_atan2
                 (Binary64.mkFix 8 0) (Binary64.mkFix (-8) 180) = nan).
  { vm_compute. rewrite Hsin1, Hsin2, Hcos1, Hcos2. vm_compute.
    rewrite Hnan. reflexivity. }
  assert (Ht : Binary64.calculateTotalDistance Math_sin Math_cos Math_atan2
                 ([Binary64.mkFix 8 0] ++ [Binary64.mkFix (-8) 180]) = nan).
  { unfold Binary64.calculateTotalDistance.
    cbn [app List.length Nat.sub seq fold_left].
    unfold Binary64.totalDistance_step. cbn [Nat.sub nth_error].
    rewrite Hd. reflexivity. }
  do 5 (split; [reflexivity|]).
  split; [exact Hd|]. split; [reflexivity|]. split; [exact Ht|].
  split; [rewrite Ht; reflexivity|rewrite Hd; reflexivity].
Qed.

Lemma C10_antipodal_NaN_witness :
  Binary64.calculateTotalDistance
    Binary64.sinAtExample Binary64.cosAtExample Binary64.atan2AtExample
    ([Binary64.mkFix 8 0] ++ [Binary64.mkFix (-8) 180])
  = nan.
Proof.
  destruct (@C10_antipodal_NaN
              Binary64.sinAtExample Binary64.cosAtExample Binary64.atan2AtExample
              eq_refl eq_refl eq_refl eq_refl (fun y => eq_refl))
    as [_ [_ [_ [_ [_ [_ [_ [H _]]]]]]]].
  exact H.
Defined.

End Binary64Facts.

(** ** The sample nearest to a timestamp: facts *)

Section ClosestScan.

Variable timestamp : Z.

Lemma scanInv_step (seen : list HeartRateData) (acc : HeartRateData * Z)
      (h : HeartRateData) :
  scanInv timestamp seen acc -> scanInv timestamp (seen ++ [h]) (closest_step timestamp acc h).
Proof.
  intros [Hm [i [Hi [Hmin Hfirst]]]].
  unfold closest_step. cbv zeta.
  destruct (Z.ltb_spec (hrDiff timestamp h) (snd acc)) as [Hlt|Hge].
  - split; [reflexivity|]. exists (List.length seen). simpl fst.
    split; [|split].
    + rewrite nth_error_app2 by lia. rewrite Nat.sub_diag. reflexivity.
    + intros j h' Hj.
      destruct (Nat.lt_ge_cases j (List.length seen)) as [Hin|Hout].
      * rewrite nth_error_app1 in Hj by exact Hin.
        specialize (Hmin j h' Hj). lia.
      * rewrite nth_error_app2 in Hj by exact Hout.
        destruct (j - List.length seen)%nat as [|k]; simpl in Hj.
        -- injection Hj as <-. lia.
        -- destruct k; discriminate.
    + intros j h' Hlt' Hj.
      rewrite nth_error_app1 in Hj by exact Hlt'.
      specialize (Hmin j h' Hj). lia.
  - split; [exact Hm|]. exists i.
    assert (Hi' : (i < List.length seen)%nat)
      by (apply nth_error_Some; rewrite Hi; discriminate).
    split; [|split].
    + rewrite nth_error_app1 by exact Hi'. exact Hi.
    + intros j h' Hj.
      destruct (Nat.lt_ge_cases j (List.length seen)) as [Hin|Hout].
      * rewrite nth_error_app1 in Hj by exact Hin. exact (Hmin j h' Hj).
      * rewrite nth_error_app2 in Hj by exact Hout.
        destruct (j - List.length seen)%nat as [|k]; simpl in Hj.
        -- injection Hj as <-. lia.
        -- destruct k; discriminate.
    + intros j h' Hlt' Hj.
      rewrite nth_error_app1 in Hj by lia. exact (Hfirst j h' Hlt' Hj).
Qed.

Lemma scanInv_fold (rest seen : list HeartRateData) (acc : HeartRateData * Z) :
  scanInv timestamp seen acc ->
  scanInv timestamp (seen ++ rest) (fold_left (closest_step timestamp) rest acc).
Proof.
  revert seen acc. induction rest as [|h rest IH]; intros seen acc Hinv; simpl.
  - rewrite app_nil_r. exact Hinv.
  - replace (seen ++ h :: rest) with ((seen ++ [h]) ++ rest)
      by (rewrite <- app_assoc; reflexivity).
    apply IH. apply scanInv_step. exact Hinv.
Qed.

Lemma scanInv_first (first : HeartRateData) :
  scanInv timestamp [first] (first, hrDiff timestamp first).
Proof.
  split; [reflexivity|]. exists O. simpl fst. split; [reflexivity|]. split.
  - intros [|[|j]] h' Hj; simpl in Hj; try discriminate.
    injection Hj as <-. lia.
  - intros j h' Hj. lia.
Qed.

End ClosestScan.

(** The scan of a sequence that is not empty ends on the earliest of the
    nearest samples, and the answer is its rate when it is within 10,000 ms. *)
Lemma findClosestHeartRate_scan (first : HeartRateData) (rest : list HeartRateData)
      (timestamp : Z) :
  exists i h,
    earliestClosest (first :: rest) timestamp i h
    /\ findClosestHeartRate (first :: rest) timestamp
       = if hrDiff timestamp h <=? 10000 then Some (heartRate h) else None.
Proof.
  pose proof (scanInv_fold rest (scanInv_first timestamp first)) as Hinv.
  unfold findClosestHeartRate.
  destruct (fold_left (closest_step timestamp) rest (first, hrDiff timestamp first))
    as [closest minDiff].
  destruct Hinv as [Hm [i Hi]]. simpl in Hm, Hi.
  exists i, closest. split; [exact Hi|]. rewrite Hm. reflexivity.
Qed.

(** C3: [findClosestHeartRate] answers [null] exactly when there is no sample
    or every sample is more than 10,000 ms from the target; otherwise the
    answer is the rate of the earliest sample at the least distance, and a
    least distance of exactly 10,000 ms still answers. *)
Theorem C3_findClosestHeartRate :
  (forall heartRates timestamp,
      findClosestHeartRate heartRates timestamp = None
      <-> heartRates = []
          \/ (forall h, In h heartRates -> 10000 < hrDiff timestamp h))
  /\ (forall first rest timestamp,
        exists i h,
          earliestClosest (first :: rest) timestamp i h
          /\ findClosestHeartRate (first :: rest) timestamp
             = if hrDiff timestamp h <=? 10000 then Some (heartRate h) else None)
  /\ findClosestHeartRate [mkHeartRateData 5000 61; mkHeartRateData 30000 95] 15000
     = Some 61
  /\ findClosestHeartRate [mkHeartRateData 5000 61; mkHeartRateData 30000 95] 15001
     = None
  /\ findClosestHeartRate [mkHeartRateData 5000 61; mkHeartRateData 9000 95] 7000
     = Some 61.
Proof.
  split; [|split; [exact findClosestHeartRate_scan|repeat split]].
  intros [|first rest] timestamp.
  - split; [intros _; left; reflexivity|reflexivity].
  - destruct (findClosestHeartRate_scan first rest timestamp)
      as [i [h [[Hi [Hmin _]] Heq]]].
    rewrite Heq.
    destruct (Z.leb_spec (hrDiff timestamp h) 10000) as [Hle|Hgt].
    + split; [discriminate|].
      intros [Hnil|Hall]; [discriminate|].
      apply nth_error_In in Hi. specialize (Hall h Hi). lia.
    + split; [|reflexivity].
      intros _. right. intros h' Hin.
      apply In_nth_error in Hin. destruct Hin as [j Hj].
      specialize (Hmin j h' Hj). lia.
Qed.

(** ** The measurement characteristic: facts *)

Lemma u8_range (b : Byte.byte) : 0 <= u8 b < 256.
Proof.
  unfold u8. pose proof (Byte.to_N_bounded b) as H. lia.
Qed.

(** The low byte and the shifted high byte share no bit. *)
Lemma lor_shiftl_8 (lo hi : Z) :
  0 <= lo < 256 -> Z.lor lo (Z.shiftl hi 8) = lo + 256 * hi.
Proof.
  intros Hlo.
  assert (Hland : Z.land lo (Z.shiftl hi 8) = 0).
  { apply Z.bits_inj'. intros n Hn.
    rewrite Z.land_spec, Z.bits_0.
    destruct (Z.lt_ge_cases n 8) as [Hlt|Hge].
    - rewrite (Z.shiftl_spec_low hi 8 n Hlt). apply andb_false_r.
    - destruct (Z.eq_dec lo 0) as [->|Hnz].
      + rewrite Z.bits_0. reflexivity.
      + rewrite (Z.bits_above_log2 lo n); [reflexivity|lia|].
        apply Z.log2_lt_pow2; [lia|].
        apply Z.lt_le_trans with (2 ^ 8).
        * change (2 ^ 8) with 256. lia.
        * apply Z.pow_le_mono_r; lia. }
  rewrite <- (Z.lxor_lor _ _ Hland).
  rewrite <- (Z.add_nocarry_lxor _ _ Hland).
  rewrite Z.shiftl_mul_pow2 by lia. change (2 ^ 8) with 256. ring.
Qed.

Lemma land_1_testbit (flags : Z) :
  negb (Z.land flags 1 =? 0) = Z.testbit flags 0.
Proof.
  change 1 with (Z.ones 1). rewrite Z.land_ones by lia.
  change (2 ^ 1) with 2. rewrite Zmod_odd, Z.bit0_odd.
  destruct (Z.odd flags); reflexivity.
Qed.

(** C7: with bit 0 of the flags byte set the rate is the little-endian
    unsigned 16-bit integer at offset 1, with the bit clear it is the
    unsigned byte at offset 1; flags 0x00 with byte 72 gives 72, and flags
    0x01 with the 16-bit value 150 gives 150. *)
Theorem C7_decodeHeartRate :
  (forall flags b1 b2 rest,
      decodeHeartRate (flags :: b1 :: b2 :: rest)
      = Some (if Z.testbit (u8 flags) 0 then u8 b1 + 256 * u8 b2 else u8 b1))
  /\ (forall flags b1,
        decodeHeartRate [flags; b1]
        = if Z.testbit (u8 flags) 0 then None else Some (u8 b1))
  /\ decodeHeartRate [Byte.x00; Byte.x48] = Some 72
  /\ decodeHeartRate [Byte.x01; Byte.x96; Byte.x00] = Some 150.
Proof.
  split; [|split; [|split; reflexivity]].
  - intros flags b1 b2 rest.
    unfold decodeHeartRate, getUint16_le, getUint8.
    cbn [nth_error option_map].
    fold (u8 flags) (u8 b1) (u8 b2).
    rewrite land_1_testbit.
    destruct (Z.testbit (u8 flags) 0); [|reflexivity].
    rewrite (lor_shiftl_8 (u8 b2) (u8_range b1)). reflexivity.
  - intros flags b1.
    unfold decodeHeartRate, getUint16_le, getUint8.
    cbn [nth_error option_map].
    fold (u8 flags) (u8 b1).
    rewrite land_1_testbit.
    destruct (Z.testbit (u8 flags) 0); reflexivity.
Qed.

(** ** The invariant of a session *)

Lemma Inv_initial : Inv initialState.
Proof.
  constructor; simpl; try lia; try reflexivity; try congruence.
  intros [|i] lap H; discriminate.
Qed.

Lemma Inv_set_distance (v : R) (s : State) : Inv s -> Inv (set_distance v s).
Proof. intros []. constructor; assumption. Qed.

Lemma Inv_set_currentPace (v : string) (s : State) :
  Inv s -> Inv (set_currentPace v s).
Proof. intros []. constructor; assumption. Qed.

Lemma Inv_set_lastPaceUpdateRef (v : Z) (s : State) :
  Inv s -> Inv (set_lastPaceUpdateRef v s).
Proof. intros []. constructor; assumption. Qed.

Lemma Inv_set_recentPacesRef (v : list R) (s : State) :
  (List.length v <= 3)%nat -> Inv s -> Inv (set_recentPacesRef v s).
Proof. intros Hv []. constructor; assumption. Qed.

Lemma Inv_set_isRunning (v : bool) (s : State) : Inv s -> Inv (set_isRunning v s).
Proof. intros []. constructor; assumption. Qed.

Lemma Inv_set_startTimeRef (v : option Z) (s : State) :
  Inv s -> Inv (set_startTimeRef v s).
Proof. intros []. constructor; assumption. Qed.

(** The history never holds more than three paces. *)
Lemma pushPace_length (recentPaces : list R) (pace : R) :
  (List.length recentPaces <= 3)%nat ->
  (List.length (Smoothed.pushPace recentPaces pace) <= 3)%nat.
Proof.
  intros H. unfold Smoothed.pushPace. cbv zeta.
  destruct (Nat.ltb_spec 3 (List.length (recentPaces ++ [pace]))) as [Hlt|Hge].
  - rewrite length_app in Hlt. simpl in Hlt.
    destruct recentPaces as [|a l]; simpl in *; [lia|].
    rewrite length_app. simpl. lia.
  - exact Hge.
Qed.

Lemma Inv_appendPosition (p : Position) (s : State) :
  Inv s -> Inv (appendPosition p s).
Proof.
  intros []. constructor; simpl; try assumption; try reflexivity.
  intros Ha. destruct (inv_activity0 Ha) as [Ht _].
  split; [exact Ht|]. destruct (positions s); discriminate.
Qed.

Lemma Inv_Smoothed_paceUpdate (now : Z) (s : State) :
  Inv s -> Inv (Smoothed.paceUpdate now s).
Proof.
  intros H. unfold Smoothed.paceUpdate.
  destruct (5000 <? now - lastPaceUpdateRef s); [|exact H].
  cbv zeta.
  destruct (Smoothed.rawPace _) as [pace|].
  - apply Inv_set_currentPace, Inv_set_recentPacesRef.
    + apply pushPace_length. simpl. apply (inv_paces H).
    + apply Inv_set_lastPaceUpdateRef. exact H.
  - apply Inv_set_lastPaceUpdateRef. exact H.
Qed.

Lemma Inv_Tabbed_paceUpdate (s : State) : Inv s -> Inv (Tabbed.paceUpdate s).
Proof.
  intros H. unfold Tabbed.paceUpdate. cbv zeta.
  destruct (1 <? _)%nat; [|exact H].
  destruct (windowMinutes _) as [m|]; [|exact H].
  destruct (Js.Rgtb m 0); [|exact H].
  destruct (Req_EM_T _ 0); apply Inv_set_currentPace; exact H.
Qed.

Lemma Inv_Smoothed_onPosition (time now : Z) (position : GeolocationPosition)
      (s : State) :
  Inv s -> Inv (Smoothed.onPosition time now position s).
Proof.
  intros H. unfold Smoothed.onPosition. cbv zeta.
  apply Inv_appendPosition.
  destruct (1 <? _)%nat; [|exact H].
  destruct (_ && _).
  - apply Inv_Smoothed_paceUpdate, Inv_set_distance. exact H.
  - apply Inv_set_distance. exact H.
Qed.

Lemma Inv_Tabbed_onPosition (time : Z) (position : GeolocationPosition)
      (s : State) :
  Inv s -> Inv (Tabbed.onPosition time position s).
Proof.
  intros H. unfold Tabbed.onPosition. cbv zeta.
  apply Inv_appendPosition.
  destruct (1 <? _)%nat; [|exact H].
  destruct (_ && _).
  - apply Inv_Tabbed_paceUpdate, Inv_set_distance. exact H.
  - apply Inv_set_distance. exact H.
Qed.

Lemma Inv_recordLap (s : State) : Inv s -> Inv (recordLap s).
Proof.
  intros H. unfold recordLap.
  destruct (negb (isRunning s)); [exact H|]. cbv zeta.
  destruct H. constructor; simpl; try assumption.
  intros i lap Hi.
  destruct (Nat.lt_ge_cases i (List.length (laps s))) as [Hlt|Hge].
  - rewrite nth_error_app1 in Hi by exact Hlt. exact (inv_laps0 i lap Hi).
  - rewrite nth_error_app2 in Hi by exact Hge.
    destruct (i - List.length (laps s))%nat as [|k] eqn:Hk; simpl in Hi.
    + injection Hi as <-. simpl. lia.
    + destruct k; discriminate.
Qed.

Lemma Inv_onHeartRate (value : option (list Byte.byte)) (now : Z) (s : State) :
  Inv s -> Inv (onHeartRate value now s).
Proof.
  intros H. unfold onHeartRate.
  destruct value as [v|]; [|exact H].
  destruct (decodeHeartRate v); [|exact H].
  destruct H. constructor; assumption.
Qed.

Lemma Inv_reset (v : Variant) (s : State) :
  Inv s -> Inv (handle v PressReset s).
Proof.
  intros H. destruct v; simpl; constructor; simpl;
    try lia; try reflexivity; try congruence;
    try (intros [|i] lap Hi; discriminate).
  apply (inv_paces H).
Qed.

Lemma Inv_timerEffect (now : Z) (s : State) : Inv s -> Inv (timerEffect now s).
Proof.
  intros H. unfold timerEffect.
  destruct (isRunning s).
  - destruct (startTimeRef s); destruct H; constructor; simpl;
      try assumption; intros; reflexivity.
  - destruct (timerRef s); [|exact H].
    destruct (0 <? time s) eqn:Ht; [|exact H].
    destruct (0 <? List.length (positions s))%nat eqn:Hp; [|exact H].
    cbn [andb].
    destruct H. constructor; simpl; try assumption; try reflexivity.
    intros _. split.
    + apply Z.ltb_lt. exact Ht.
    + apply Nat.ltb_lt in Hp. destruct (positions s); [simpl in Hp; lia|discriminate].
Qed.

Lemma Inv_handle (v : Variant) (e : Event) (s : State) :
  enabled e s -> Inv s -> Inv (handle v e s).
Proof.
  intros He H. destruct e.
  - apply Inv_set_isRunning. exact H.
  - apply Inv_recordLap. exact H.
  - apply Inv_reset. exact H.
  - destruct He as [_ Htimer]. destruct H.
    constructor; simpl; try assumption; [lia|intros _; exact Htimer|].
    intros Ha. destruct (inv_activity0 Ha). split; [lia|assumption].
  - destruct v; simpl.
    + apply Inv_Tabbed_onPosition. exact H.
    + apply Inv_Smoothed_onPosition. exact H.
  - apply Inv_set_isRunning. exact H.
  - apply Inv_onHeartRate. exact H.
Qed.

(** Every state of a session satisfies the invariant. *)
Lemma reachable_Inv (v : Variant) (s : State) : reachable v s -> Inv s.
Proof.
  induction 1 as [|e s _ IH He|now s _ IH].
  - exact Inv_initial.
  - apply Inv_handle; assumption.
  - apply Inv_timerEffect. exact IH.
Qed.

(** ** Stop, lap and reset *)

(** C1: stopping a running recorder (the press, then the timer effect at
    clock [now]) leaves an Activity exactly when the seconds counter is
    positive and there is a fix; that Activity has the counter as its
    total time, the accumulated distance as its total distance, and the fix,
    heart-rate and lap sequences as they are; otherwise there is no Activity
    and nothing is marked completed. *)
Theorem C1_stop_activity (v : Variant) (s : State) (now : Z) :
  reachable v s -> isRunning s = true ->
  let stopped := timerEffect now (startStop s) in
  isRunning stopped = false
  /\ ((exists a, activity stopped = Some a)
      <-> 0 < time s /\ positions s <> [])
  /\ (0 < time s /\ positions s <> [] ->
      activityCompleted stopped = true
      /\ exists a,
          activity stopped = Some a
          /\ startTime a = Js.orElse (startTimeRef s) (now - time s * 1000)
          /\ endTime a = now
          /\ totalTime a = time s
          /\ totalDistance a = distance s
          /\ act_positions a = positions s
          /\ heartRates a = heartRateData s
          /\ act_laps a = laps s)
  /\ (~ (0 < time s /\ positions s <> []) ->
      activity stopped = None /\ activityCompleted stopped = false).
Proof.
  intros Hreach Hrun stopped.
  pose proof (reachable_Inv Hreach) as HI.
  assert (Hnone : ~ (0 < time s /\ positions s <> []) ->
                  activity s = None /\ activityCompleted s = false).
  { intros Hn. assert (Ha : activity s = None).
    { destruct (activity s) eqn:E; [|reflexivity].
      exfalso. apply Hn. apply (inv_activity HI). rewrite E. discriminate. }
    split; [exact Ha|]. rewrite (inv_completed HI), Ha. reflexivity. }
  assert (Hcond : (0 <? time s) && (0 <? List.length (positions s))%nat = true
                  <-> 0 < time s /\ positions s <> []).
  { rewrite andb_true_iff, Z.ltb_lt, Nat.ltb_lt.
    destruct (positions s); simpl; split; intros [H1 H2]; split;
      try assumption; try lia; try congruence. }
  assert (Hstopped :
            stopped
            = if timerRef s then
                if (0 <? time s) && (0 <? List.length (positions s))%nat
                then set_activity true (Some (buildActivity now (startStop s)))
                                  (startStop s)
                else startStop s
              else startStop s).
  { unfold stopped, timerEffect, startStop. simpl. rewrite Hrun. reflexivity. }
  destruct (timerRef s) eqn:Htimer.
  - destruct ((0 <? time s) && (0 <? List.length (positions s))%nat) eqn:Hb.
    + assert (Hc : 0 < time s /\ positions s <> []) by (apply Hcond; reflexivity).
      rewrite Hstopped. simpl. rewrite Hrun.
      split; [reflexivity|]. split.
      * split; [intros _; exact Hc|intros _; eexists; reflexivity].
      * split.
        -- intros _. split; [reflexivity|].
           eexists. split; [reflexivity|]. simpl. repeat split; reflexivity.
        -- intros Hn. contradiction.
    + assert (Hc : ~ (0 < time s /\ positions s <> [])).
      { intros Hc. apply Hcond in Hc. congruence. }
      destruct (Hnone Hc) as [Ha Hcompl].
      rewrite Hstopped. simpl. rewrite Hrun, Ha, Hcompl.
      split; [reflexivity|]. split.
      * split; [intros [a Habs]; discriminate|intros Hc'; contradiction].
      * split; [intros Hc'; contradiction|intros _; split; reflexivity].
  - assert (Hc : ~ (0 < time s /\ positions s <> [])).
    { intros [Ht _]. pose proof (inv_timer HI Ht). congruence. }
    destruct (Hnone Hc) as [Ha Hcompl].
    rewrite Hstopped. simpl. rewrite Hrun, Ha, Hcompl.
    split; [reflexivity|]. split.
    + split; [intros [a Habs]; discriminate|intros Hc'; contradiction].
    + split; [intros Hc'; contradiction|intros _; split; reflexivity].
Qed.

Lemma runningExample_reachable : reachable SmoothedVariant runningExample.
Proof.
  unfold runningExample.
  apply reach_event; [|split; reflexivity].
  apply reach_event; [|exact I].
  apply reach_effect.
  apply reach_event; [|exact I].
  apply reach_initial.
Qed.

Lemma C1_stop_activity_witness :
  exists a,
    activity (timerEffect 2500 (startStop runningExample)) = Some a
    /\ totalTime a = 1.
Proof.
  destruct (C1_stop_activity 2500 runningExample_reachable eq_refl)
    as [_ [_ [Hsome _]]].
  destruct Hsome as [_ [a [Ha [_ [_ [Ht _]]]]]].
  - split; [reflexivity|discriminate].
  - exists a. split; [exact Ha|exact Ht].
Defined.

Lemma fold_left_heartRate (l : list HeartRateData) (acc : Z) :
  fold_left (fun acc data => acc + heartRate data) l acc
  = acc + sumHeartRates l.
Proof.
  revert acc. induction l as [|d l IH]; intros acc; simpl.
  - unfold sumHeartRates. simpl. lia.
  - rewrite IH. unfold sumHeartRates. simpl. lia.
Qed.

(** [Math.round] of a quotient of integers, by integer division. *)
Lemma Math_round_quotient (a : Z) (p : positive) :
  Js.Math_round (inject_Z a / inject_Z (Z.pos p))%Q
  = (2 * a + Z.pos p) / (2 * Z.pos p).
Proof.
  unfold Js.Math_round, Qdiv, Qinv, Qmult, Qplus, inject_Z, Qfloor.
  cbn [Qnum Qden].
  f_equal; lia.
Qed.

(** The mean of [recordLap] is the integer nearest to the mean of all the
    samples, a half going up. *)
Lemma averageHeartRate_nearest (d : HeartRateData) (rest : list HeartRateData) :
  exists r,
    averageHeartRate (d :: rest) = Some r
    /\ let n := Z.of_nat (List.length (d :: rest)) in
       let sum := sumHeartRates (d :: rest) in
       2 * n * r <= 2 * sum + n < 2 * n * (r + 1).
Proof.
  unfold averageHeartRate.
  change (0 <? List.length (d :: rest))%nat with true. cbv iota zeta.
  rewrite fold_left_heartRate, Z.add_0_l.
  destruct (Z.of_nat (List.length (d :: rest))) as [|p|p] eqn:Hn;
    [simpl in Hn; lia| |lia].
  rewrite Math_round_quotient.
  eexists. split; [reflexivity|].
  set (sum := sumHeartRates (d :: rest)).
  pose proof (Z.div_mod (2 * sum + Z.pos p) (2 * Z.pos p) ltac:(lia)) as Hdm.
  pose proof (Z.mod_pos_bound (2 * sum + Z.pos p) (2 * Z.pos p) ltac:(lia)) as Hb.
  nia.
Qed.

(** C6: [recordLap] does nothing unless the recorder runs; running, it adds
    one Lap at the end, whose ordinal is the lap count plus 1, whose time,
    distance and pace are the current ones, and whose average heart rate is
    the rounded mean of all the samples collected so far, absent when there
    is none; so the laps of a session carry the ordinals 1, 2, 3, ... *)
Theorem C6_recordLap (v : Variant) (s : State) :
  reachable v s ->
  (isRunning s = false -> recordLap s = s)
  /\ (isRunning s = true ->
      exists lap,
        recordLap s = set_laps (laps s ++ [lap]) s
        /\ number lap = Z.of_nat (List.length (laps s)) + 1
        /\ lap_time lap = formatTime (time s)
        /\ lap_distance lap = distance s
        /\ pace lap = currentPace s
        /\ avgHeartRate lap = averageHeartRate (heartRateData s))
  /\ averageHeartRate [] = None
  /\ (forall d rest,
        exists r,
          averageHeartRate (d :: rest) = Some r
          /\ let n := Z.of_nat (List.length (d :: rest)) in
             let sum := sumHeartRates (d :: rest) in
             2 * n * r <= 2 * sum + n < 2 * n * (r + 1))
  /\ lapsNumbered (laps (recordLap s)).
Proof.
  intros Hreach. repeat split.
  - intros Hrun. unfold recordLap. rewrite Hrun. reflexivity.
  - intros Hrun. unfold recordLap. rewrite Hrun. cbv zeta.
    eexists. split; [reflexivity|]. simpl. repeat split; reflexivity.
  - exact averageHeartRate_nearest.
  - apply inv_laps. apply Inv_recordLap. exact (reachable_Inv Hreach).
Qed.

Lemma twoLapsExample_reachable : reachable SmoothedVariant twoLapsExample.
Proof.
  unfold twoLapsExample.
  do 3 (apply reach_event; [|exact I]).
  exact runningExample_reachable.
Qed.

(** The second lap averages the samples of the whole session, 100 and 200,
    and not the one sample, 200, that came after the first lap. *)
Lemma C6_recordLap_witness :
  exists lap,
    nth_error (laps (recordLap twoLapsExample)) 1 = Some lap
    /\ number lap = 2
    /\ avgHeartRate lap = Some 150.
Proof.
  destruct (C6_recordLap twoLapsExample_reachable) as [_ [Hlap _]].
  destruct (Hlap eq_refl) as [lap [Hrec [Hnum [_ [_ [_ Havg]]]]]].
  exists lap. rewrite Hrec. split; [reflexivity|].
  split; [exact Hnum|exact Havg].
Defined.

(** C8: after [reset] the fix, lap and heart-rate sequences are empty, the
    seconds counter and the distance are 0, the pace reads 0:00, the pace
    history is empty, there is no Activity and nothing is marked completed,
    the recorder does not run, and the watch it held is cleared; the timer
    effect that follows changes nothing.  The tabbed variant, which has no
    pace history, does the same. *)
Theorem C8_reset (s : State) (now : Z) :
  (let s' := Smoothed.reset s in
   positions s' = [] /\ laps s' = [] /\ heartRateData s' = []
   /\ lastPositionsRef s' = []
   /\ time s' = 0 /\ distance s' = 0%R /\ currentPace s' = "0:00"%string
   /\ recentPacesRef s' = []
   /\ activity s' = None /\ activityCompleted s' = false
   /\ isRunning s' = false /\ startTimeRef s' = None
   /\ watchId s' = None
   /\ match watchId s with
      | Some id => ~ In id (geoWatches s')
      | None => geoWatches s' = geoWatches s
      end
   /\ timerEffect now s' = s')
  /\ (let s' := Tabbed.reset s in
      positions s' = [] /\ laps s' = [] /\ heartRateData s' = []
      /\ lastPositionsRef s' = []
      /\ time s' = 0 /\ distance s' = 0%R /\ currentPace s' = "0:00"%string
      /\ activity s' = None /\ activityCompleted s' = false
      /\ isRunning s' = false /\ startTimeRef s' = None
      /\ watchId s' = None
      /\ match watchId s with
         | Some id => ~ In id (geoWatches s')
         | None => geoWatches s' = geoWatches s
         end
      /\ timerEffect now s' = s').
Proof.
  split; cbv zeta; repeat (split; [reflexivity|]); split.
  - simpl. destruct (watchId s) as [id|]; [apply remove_In|reflexivity].
  - unfold timerEffect. simpl. destruct (timerRef s); reflexivity.
  - simpl. destruct (watchId s) as [id|]; [apply remove_In|reflexivity].
  - unfold timerEffect. simpl. destruct (timerRef s); reflexivity.
Qed.

(** ** The pace: facts *)

(** A non-negative integer below 100, padded to two places, is its two
    decimal digits. *)
Lemma padStart_two_digits (z : Z) :
  0 <= z < 100 ->
  Js.padStart 2 "0" (Js.toString z)
  = (Js.toString (z / 10) ++ Js.toString (z mod 10))%string.
Proof.
  intros Hz.
  assert (Hn : exists n, (n < 100)%nat /\ z = Z.of_nat n).
  { exists (Z.to_nat z). split; lia. }
  destruct Hn as [n [Hn ->]].
  do 100 (destruct n as [|n]; [reflexivity|]).
  lia.
Qed.

Lemma Math_floor_bounds (x : R) :
  (IZR (Js.Math_floor x) <= x < IZR (Js.Math_floor x) + 1)%R.
Proof.
  unfold Js.Math_floor. destruct (base_Int_part x) as [H1 H2]. lra.
Qed.

Lemma Math_floor_eq (x : R) (z : Z) :
  (IZR z <= x < IZR z + 1)%R -> Js.Math_floor x = z.
Proof.
  intros H. unfold Js.Math_floor. symmetry. apply Int_part_spec. lra.
Qed.

(** The seconds of [formatPace] are the fractional minutes, in sixtieths,
    cut down to an integer of 0..59. *)
Lemma formatPace_seconds_range (pace : R) :
  0 <= Js.Math_floor ((pace - IZR (Js.Math_floor pace)) * 60)%R < 60.
Proof.
  pose proof (Math_floor_bounds pace) as Hm.
  pose proof (Math_floor_bounds ((pace - IZR (Js.Math_floor pace)) * 60)%R) as Hs.
  set (sec := Js.Math_floor ((pace - IZR (Js.Math_floor pace)) * 60)%R) in *.
  split.
  - apply Z.lt_succ_r. apply lt_IZR. rewrite succ_IZR. lra.
  - apply lt_IZR. lra.
Qed.

Lemma formatPace_digits (pace : R) :
  let minutes := Js.Math_floor pace in
  let seconds := Js.Math_floor ((pace - IZR minutes) * 60)%R in
  formatPace pace
  = (Js.toString minutes ++ ":"
       ++ Js.toString (seconds / 10) ++ Js.toString (seconds mod 10))%string.
Proof.
  cbv zeta. unfold formatPace. cbv zeta.
  rewrite padStart_two_digits; [reflexivity|].
  pose proof (formatPace_seconds_range pace). lia.
Qed.




Lemma Rgtb_true (x y : R) : Js.Rgtb x y = true <-> (y < x)%R.
Proof.
  unfold Js.Rgtb. destruct (Rlt_dec y x); split; intros; try assumption;
    try reflexivity; try discriminate; contradiction.
Qed.




(** The raw pace of a window is its minutes over its kilometres. *)
Lemma rawPace_some (window : list Position) (pace : R) :
  Smoothed.rawPace window = Some pace ->
  exists m,
    windowMinutes window = Some m
    /\ (0 < m)%R /\ (0 < calculateTotalDistance window)%R
    /\ pace = (m / calculateTotalDistance window)%R.
Proof.
  unfold Smoothed.rawPace.
  destruct (1 <? List.length window)%nat; [|discriminate].
  destruct (windowMinutes window) as [m|]; [|discriminate]. cbv zeta.
  destruct (Js.Rgtb m 0) eqn:Em; [|discriminate].
  destruct (Js.Rgtb (calculateTotalDistance window) 0) eqn:Ed; [|discriminate].
  cbn [andb]. intros H. injection H as <-.
  apply Rgtb_true in Em. apply Rgtb_true in Ed.
  exists m. repeat split; assumption.
Qed.

(** The window of [getRecentPositions] on two fixes or more: the fixes not
    older than [seconds] before the last one, in their order. *)
Lemma getRecentPositions_window (l : list Position) (lastPos : Position)
      (seconds : Z) :
  getRecentPositions (l ++ [lastPos]) seconds
  = match l with
    | [] => [lastPos]
    | _ :: _ =>
        filter (fun pos => timestamp lastPos - seconds * 1000 <=? timestamp pos)
               (l ++ [lastPos])
    end.
Proof.
  unfold getRecentPositions.
  destruct l as [|a l]; [reflexivity|].
  replace (List.length ((a :: l) ++ [lastPos]) <=? 1)%nat with false
    by (symmetry; apply Nat.leb_gt; rewrite length_app; simpl; lia).
  rewrite nth_error_app2 by (rewrite length_app; simpl; lia).
  replace (List.length ((a :: l) ++ [lastPos]) - 1 - List.length (a :: l))%nat
    with O by (rewrite length_app; simpl; lia).
  cbn [nth_error]. cbv zeta.
  apply filter_ext. intros pos. rewrite Z.geb_leb. reflexivity.
Qed.

Lemma reachable_evolves (v : Variant) (s : State) :
  reachable v s <-> evolves v initialState s.
Proof.
  split.
  - induction 1 as [|e s _ IH He|now s _ IH].
    + apply evolves_refl.
    + apply evolves_event; assumption.
    + apply evolves_effect. exact IH.
  - intros H. remember initialState as s0 eqn:E.
    induction H as [s|e s s' _ IH He|now s s' _ IH]; subst.
    + apply reach_initial.
    + apply reach_event; [apply IH; reflexivity|exact He].
    + apply reach_effect. apply IH. reflexivity.
Qed.

Lemma timerEffect_pace (now : Z) (s : State) :
  lastPaceUpdateRef (timerEffect now s) = lastPaceUpdateRef s
  /\ recentPacesRef (timerEffect now s) = recentPacesRef s
  /\ currentPace (timerEffect now s) = currentPace s.
Proof.
  unfold timerEffect.
  destruct (isRunning s); [destruct (startTimeRef s); repeat split|].
  destruct (timerRef s); [|repeat split].
  destruct (_ && _); repeat split.
Qed.

(** The throttle: below it nothing changes, above it the clock is noted. *)
Lemma paceUpdate_throttled (now : Z) (s : State) :
  now - lastPaceUpdateRef s <= 5000 -> Smoothed.paceUpdate now s = s.
Proof.
  intros H. unfold Smoothed.paceUpdate.
  destruct (Z.ltb_spec 5000 (now - lastPaceUpdateRef s)); [lia|reflexivity].
Qed.

Lemma paceUpdate_passed (now : Z) (s : State) :
  5000 < now - lastPaceUpdateRef s ->
  lastPaceUpdateRef (Smoothed.paceUpdate now s) = now.
Proof.
  intros H. unfold Smoothed.paceUpdate.
  destruct (Z.ltb_spec 5000 (now - lastPaceUpdateRef s)); [|lia].
  cbv zeta. destruct (Smoothed.rawPace _); reflexivity.
Qed.

(** The callback, seen from the pace: it takes the distance or not, runs
    the pace update or not, on the fixes as it finds them, and the render
    appends the new fix. *)
Lemma onPosition_paceUpdate (time now : Z) (position : GeolocationPosition)
      (s : State) :
  exists s1,
    lastPositionsRef s1 = lastPositionsRef s
    /\ lastPaceUpdateRef s1 = lastPaceUpdateRef s
    /\ recentPacesRef s1 = recentPacesRef s
    /\ currentPace s1 = currentPace s
    /\ (Smoothed.onPosition time now position s
        = appendPosition (newPositionOf position) s1
        \/ Smoothed.onPosition time now position s
           = appendPosition (newPositionOf position) (Smoothed.paceUpdate now s1)).
Proof.
  unfold Smoothed.onPosition. cbv zeta.
  destruct (1 <? _)%nat.
  - exists (set_distance (calculateTotalDistance (lastPositionsRef s)) s).
    repeat (split; [reflexivity|]).
    destruct (_ && _); [right|left]; reflexivity.
  - exists s. repeat (split; [reflexivity|]). left. reflexivity.
Qed.

Lemma onPosition_last (time now : Z) (position : GeolocationPosition) (s : State) :
  lastPaceUpdateRef (Smoothed.onPosition time now position s)
  = lastPaceUpdateRef s
  \/ (5000 < now - lastPaceUpdateRef s
      /\ lastPaceUpdateRef (Smoothed.onPosition time now position s) = now).
Proof.
  destruct (onPosition_paceUpdate time now position s)
    as [s1 [_ [Hlast [_ [_ [-> | ->]]]]]].
  - left. exact Hlast.
  - destruct (Z.le_gt_cases (now - lastPaceUpdateRef s1) 5000) as [Hle|Hgt].
    + left. rewrite paceUpdate_throttled by exact Hle. exact Hlast.
    + right. rewrite <- Hlast. split; [lia|].
      change (lastPaceUpdateRef (Smoothed.paceUpdate now s1) = now).
      apply paceUpdate_passed. lia.
Qed.



(** Without a pass of the throttle the callback leaves the pace alone. *)
Lemma onPosition_no_pass (time now : Z) (position : GeolocationPosition)
      (s : State) :
  lastPaceUpdateRef (Smoothed.onPosition time now position s)
  = lastPaceUpdateRef s ->
  recentPacesRef (Smoothed.onPosition time now position s) = recentPacesRef s
  /\ currentPace (Smoothed.onPosition time now position s) = currentPace s.
Proof.
  destruct (onPosition_paceUpdate time now position s)
    as [s1 [_ [Hlast [Hpaces [Hcur [-> | ->]]]]]].
  - intros _. split; assumption.
  - intros H.
    destruct (Z.le_gt_cases (now - lastPaceUpdateRef s1) 5000) as [Hle|Hgt].
    + rewrite paceUpdate_throttled by exact Hle. split; assumption.
    + change (lastPaceUpdateRef (Smoothed.paceUpdate now s1)
              = lastPaceUpdateRef s) in H.
      rewrite paceUpdate_passed in H by exact Hgt. lia.
Qed.

(** ** Distances along the equator *)

Lemma PI_bounds : (3 < PI <= 4)%R.
Proof. pose proof PI2_3_2. pose proof PI_4. lra. Qed.

(** Between two fixes on the equator less than half a turn apart the
    haversine distance is the arc: the radius times the angle. *)
Lemma calculateDistance_equator (p q : Position) :
  latitude p = 0%R -> latitude q = 0%R ->
  (0 <= longitude q - longitude p < 180)%R ->
  calculateDistance p q = (6371 * deg2rad (longitude q - longitude p))%R.
Proof.
  intros Hp Hq Hlon.
  pose proof PI_bounds as HPI.
  unfold calculateDistance. cbv zeta. rewrite Hp, Hq.
  set (x := (deg2rad (longitude q - longitude p) / 2)%R).
  assert (Hx : (0 <= x < PI / 2)%R).
  { unfold x, deg2rad. split.
    - apply Rmult_le_pos; [|lra]. apply Rmult_le_pos; lra.
    - assert ((longitude q - longitude p) * (PI / 180) < 180 * (PI / 180))%R.
      { apply Rmult_lt_compat_r; lra. }
      lra. }
  replace (deg2rad (0 - 0) / 2)%R with 0%R by (unfold deg2rad; field).
  replace (deg2rad 0) with 0%R by (unfold deg2rad; ring).
  rewrite sin_0, cos_0.
  assert (Hsin : (0 <= sin x)%R) by (apply sin_ge_0; lra).
  assert (Hcos : (0 < cos x)%R) by (apply cos_gt_0; lra).
  replace (0 * 0 + 1 * 1 * sin x * sin x)%R with (sin x * sin x)%R by ring.
  replace (1 - sin x * sin x)%R with (cos x * cos x)%R
    by (pose proof (sin2_cos2 x) as H; unfold Rsqr in H; lra).
  rewrite (sqrt_square (sin x)) by exact Hsin.
  rewrite (sqrt_square (cos x)) by lra.
  unfold Js.Math_atan2.
  destruct (Rlt_dec 0 (cos x)) as [_|Hn]; [|contradiction].
  change (sin x / cos x)%R with (tan x).
  rewrite atan_tan by lra.
  unfold x. field.
Qed.

(** ** The callbacks on a fix, branch by branch *)

(** With no fix or one fix before it, the callback computes nothing: the
    render appends the fix and that is all. *)
Lemma Smoothed_onPosition_short (time now : Z) (position : GeolocationPosition)
      (s : State) :
  (List.length (lastPositionsRef s) <= 1)%nat ->
  Smoothed.onPosition time now position s
  = appendPosition (newPositionOf position) s.
Proof.
  intros H. unfold Smoothed.onPosition. cbv zeta.
  apply Nat.ltb_ge in H. rewrite H. reflexivity.
Qed.

Lemma Tabbed_onPosition_short (time : Z) (position : GeolocationPosition)
      (s : State) :
  (List.length (lastPositionsRef s) <= 1)%nat ->
  Tabbed.onPosition time position s
  = appendPosition (newPositionOf position) s.
Proof.
  intros H. unfold Tabbed.onPosition. cbv zeta.
  apply Nat.ltb_ge in H. rewrite H. reflexivity.
Qed.

(** The smoothed callback behind its guards: it notes the clock; a raw pace
    enters the history and the mean of the history is displayed; without a
    raw pace history and display stay. *)
Lemma Smoothed_onPosition_guarded (time now : Z) (position : GeolocationPosition)
      (s : State) :
  paceGuards time now s ->
  let s' := Smoothed.onPosition time now position s in
  positions s' = positions s ++ [newPositionOf position]
  /\ lastPositionsRef s' = positions s ++ [newPositionOf position]
  /\ distance s' = calculateTotalDistance (lastPositionsRef s)
  /\ lastPaceUpdateRef s' = now
  /\ match Smoothed.rawPace (getRecentPositions (lastPositionsRef s) 60) with
     | Some pace =>
         recentPacesRef s' = Smoothed.pushPace (recentPacesRef s) pace
         /\ currentPace s'
            = formatPace (Smoothed.averagePace
                            (Smoothed.pushPace (recentPacesRef s) pace))
     | None =>
         recentPacesRef s' = recentPacesRef s /\ currentPace s' = currentPace s
     end.
Proof.
  intros [Hlen [Htime [Hdist Hthrottle]]]. cbv zeta.
  unfold Smoothed.onPosition. cbv zeta.
  apply Nat.ltb_lt in Hlen. rewrite Hlen.
  apply Z.ltb_lt in Htime. rewrite Htime.
  apply Rgtb_true in Hdist. rewrite Hdist. cbn [andb].
  unfold Smoothed.paceUpdate.
  cbn [lastPaceUpdateRef set_distance].
  apply Z.ltb_lt in Hthrottle. rewrite Hthrottle. cbv zeta.
  cbn [lastPositionsRef set_lastPaceUpdateRef set_distance].
  destruct (Smoothed.rawPace _); repeat split.
Qed.


(** The tabbed callback with every test passed and a window of a distance
    other than 0: the raw pace of the window of 30 seconds is displayed. *)
Lemma Tabbed_onPosition_valid (time : Z) (position : GeolocationPosition)
      (s : State) (m : R) :
  let window := getRecentPositions (lastPositionsRef s) 30 in
  let s' := Tabbed.onPosition time position s in
  (1 < List.length (lastPositionsRef s))%nat ->
  0 < time ->
  (0 < calculateTotalDistance (lastPositionsRef s))%R ->
  (1 < List.length window)%nat ->
  windowMinutes window = Some m ->
  (0 < m)%R ->
  calculateTotalDistance window <> 0%R ->
  lastPositionsRef s' = positions s ++ [newPositionOf position]
  /\ currentPace s' = formatPace (m / calculateTotalDistance window)%R.
Proof.
  intros window s' Hlen Htime Hdist Hwin Hm Hpos Hnz.
  unfold s', Tabbed.onPosition. cbv zeta.
  apply Nat.ltb_lt in Hlen. rewrite Hlen.
  apply Z.ltb_lt in Htime. rewrite Htime.
  apply Rgtb_true in Hdist. rewrite Hdist. cbn [andb].
  unfold Tabbed.paceUpdate. cbv zeta.
  cbn [lastPositionsRef set_distance]. fold window.
  apply Nat.ltb_lt in Hwin. rewrite Hwin, Hm.
  apply Rgtb_true in Hpos. rewrite Hpos.
  destruct (Req_EM_T (calculateTotalDistance window) 0) as [E|_];
    [contradiction|].
  split; reflexivity.
Qed.

Lemma div_between (m d lo hi : R) :
  (0 < d)%R -> (lo * d <= m)%R -> (m < hi * d)%R -> (lo <= m / d < hi)%R.
Proof.
  intros Hd Hlo Hhi.
  assert (E : (m / d * d = m)%R) by (field; lra).
  split.
  - apply Rmult_le_reg_r with d; [exact Hd|]. rewrite E. exact Hlo.
  - apply Rmult_lt_reg_r with d; [exact Hd|]. rewrite E. exact Hhi.
Qed.

Lemma averagePace_single (pace : R) : Smoothed.averagePace [pace] = pace.
Proof. unfold Smoothed.averagePace. simpl. field. Qed.

(** ** Two variants, one stream of fixes *)

Lemma resumedExample_reachable (v : Variant) : reachable v resumedExample.
Proof.
  unfold resumedExample.
  apply reach_effect. apply (reach_event PressStartStop); [|exact I].
  apply reach_effect. apply (reach_event PressStartStop); [|exact I].
  cbn [Nat.iter].
  do 10 (apply (reach_event IntervalTick); [|split; reflexivity]).
  apply reach_effect. apply (reach_event PressStartStop); [|exact I].
  apply reach_initial.
Qed.

Lemma distance_AB :
  calculateTotalDistance [newPositionOf fixA; newPositionOf fixB]
  = (6371 * deg2rad (3 / 100000))%R.
Proof.
  rewrite calculateTotalDistance_sum. cbn [sumConsecutive].
  rewrite calculateDistance_equator; try reflexivity.
  - cbn [longitude newPositionOf fixA fixB equatorFix coords_longitude].
    unfold deg2rad. ring.
  - cbn [longitude newPositionOf fixA fixB equatorFix coords_longitude]. lra.
Qed.

Lemma distance_ABC :
  calculateTotalDistance
    [newPositionOf fixA; newPositionOf fixB; newPositionOf fixC]
  = (6371 * deg2rad (1003 / 100000))%R.
Proof.
  rewrite calculateTotalDistance_sum. cbn [sumConsecutive].
  rewrite !calculateDistance_equator; try reflexivity.
  - cbn [longitude newPositionOf fixA fixB fixC equatorFix coords_longitude].
    unfold deg2rad. ring.
  - cbn [longitude newPositionOf fixA fixB fixC equatorFix coords_longitude]. lra.
  - cbn [longitude newPositionOf fixA fixB fixC equatorFix coords_longitude]. lra.
Qed.

(** The raw pace of the first two fixes lies between 3 and 6 min/km. *)
Lemma pace_AB_bounds :
  (3 <= IZR 900 / 1000 / 60 / (6371 * deg2rad (3 / 100000)) < 6)%R.
Proof.
  pose proof PI_bounds. unfold deg2rad.
  apply div_between; lra.
Qed.

(** The raw pace of the first three fixes is below 1 min/km. *)
Lemma pace_ABC_bounds :
  (0 <= IZR 1800 / 1000 / 60 / (6371 * deg2rad (1003 / 100000)) < 1)%R.
Proof.
  pose proof PI_bounds. unfold deg2rad.
  apply div_between; lra.
Qed.

(** The raw pace that the window of the first two fixes gives. *)
Lemma rawPace_AB :
  Smoothed.rawPace
    (getRecentPositions [newPositionOf fixA; newPositionOf fixB] 60)
  = Some (IZR 900 / 1000 / 60 / (6371 * deg2rad (3 / 100000)))%R.
Proof.
  assert (Hd : (0 < 6371 * deg2rad (3 / 100000))%R).
  { pose proof PI_bounds. unfold deg2rad. lra. }
  change (getRecentPositions [newPositionOf fixA; newPositionOf fixB] 60)
    with [newPositionOf fixA; newPositionOf fixB].
  unfold Smoothed.rawPace.
  change (1 <? List.length [newPositionOf fixA; newPositionOf fixB])%nat
    with true.
  change (windowMinutes [newPositionOf fixA; newPositionOf fixB])
    with (Some (IZR 900 / 1000 / 60)%R).
  cbv iota zeta. rewrite distance_AB.
  replace (Js.Rgtb (IZR 900 / 1000 / 60) 0) with true
    by (symmetry; apply Rgtb_true; lra).
  replace (Js.Rgtb (6371 * deg2rad (3 / 100000)) 0) with true
    by (symmetry; apply Rgtb_true; exact Hd).
  reflexivity.
Qed.

(** Either callback appends the fix, whatever else it does. *)
Lemma onPosition_fixes (v : Variant) (time now : Z)
      (position : GeolocationPosition) (s : State) :
  positions (handle v (PositionFix time now position) s)
  = positions s ++ [newPositionOf position]
  /\ lastPositionsRef (handle v (PositionFix time now position) s)
     = positions s ++ [newPositionOf position].
Proof.
  destruct v; cbn [handle].
  - unfold Tabbed.onPosition. cbv zeta.
    destruct (1 <? _)%nat; [|split; reflexivity].
    destruct (_ && _); [|split; reflexivity].
    unfold Tabbed.paceUpdate. cbv zeta.
    destruct (1 <? _)%nat; [|split; reflexivity].
    destruct (windowMinutes _) as [m|]; [|split; reflexivity].
    destruct (Js.Rgtb m 0); [|split; reflexivity].
    destruct (Req_EM_T _ 0); split; reflexivity.
  - unfold Smoothed.onPosition. cbv zeta.
    destruct (1 <? _)%nat; [|split; reflexivity].
    destruct (_ && _); [|split; reflexivity].
    unfold Smoothed.paceUpdate.
    destruct (5000 <? _); [|split; reflexivity].
    cbv zeta. destruct (Smoothed.rawPace _); split; reflexivity.
Qed.

(** The first two fixes of the stream find no two fixes before them: in
    both variants they are appended and nothing else happens. *)
Lemma after_two_fixes (v : Variant) :
  run v [PositionFix 10 1700000000000 fixA; PositionFix 10 1700000000900 fixB]
      resumedExample
  = appendPosition (newPositionOf fixB)
      (appendPosition (newPositionOf fixA) resumedExample).
Proof.
  cbn [run fold_left]. destruct v; cbn [handle].
  - rewrite (@Tabbed_onPosition_short 10 fixA resumedExample)
      by (simpl; lia).
    apply Tabbed_onPosition_short. simpl. lia.
  - rewrite (@Smoothed_onPosition_short 10 1700000000000 fixA resumedExample)
      by (simpl; lia).
    apply Smoothed_onPosition_short. simpl. lia.
Qed.

(** The smoothed variant at the third fix: the tests pass, and the raw pace
    of the first two fixes is the history and, formatted, the display. *)
Lemma smoothed_third_fix :
  let s := run SmoothedVariant firstFixes resumedExample in
  let pace := (IZR 900 / 1000 / 60 / (6371 * deg2rad (3 / 100000)))%R in
  lastPaceUpdateRef s = 1700000001800
  /\ recentPacesRef s = [pace]
  /\ currentPace s = formatPace pace.
Proof.
  cbv zeta.
  change (run SmoothedVariant firstFixes resumedExample)
    with (Smoothed.onPosition 10 1700000001800 fixC
            (run SmoothedVariant
               [PositionFix 10 1700000000000 fixA;
                PositionFix 10 1700000000900 fixB] resumedExample)).
  rewrite after_two_fixes.
  set (s2 := appendPosition (newPositionOf fixB)
               (appendPosition (newPositionOf fixA) resumedExample)).
  assert (Hg : paceGuards 10 1700000001800 s2).
  { split; [simpl; lia|]. split; [lia|]. split.
    - change (lastPositionsRef s2)
        with [newPositionOf fixA; newPositionOf fixB].
      rewrite distance_AB. pose proof PI_bounds. unfold deg2rad. lra.
    - change (lastPaceUpdateRef s2) with 0. lia. }
  destruct (Smoothed_onPosition_guarded fixC Hg) as [_ [_ [_ [Hlast Hpace]]]].
  change (lastPositionsRef s2)
    with [newPositionOf fixA; newPositionOf fixB] in Hpace.
  rewrite rawPace_AB in Hpace. destruct Hpace as [Hr Hc].
  change (recentPacesRef s2) with (@nil R) in Hr, Hc.
  change (Smoothed.pushPace [] (IZR 900 / 1000 / 60 / (6371 * deg2rad (3 / 100000)))%R)
    with [(IZR 900 / 1000 / 60 / (6371 * deg2rad (3 / 100000)))%R] in Hr, Hc.
  rewrite averagePace_single in Hc.
  split; [exact Hlast|]. split; [exact Hr|exact Hc].
Qed.

Lemma tabbed_display :
  exists seconds,
    currentPace (run TabbedVariant divergingFixes resumedExample)
    = (Js.toString 0 ++ ":" ++ seconds)%string.
Proof.
  unfold divergingFixes, run. rewrite fold_left_app. cbn [fold_left handle].
  fold (run TabbedVariant firstFixes resumedExample).
  set (t3 := run TabbedVariant firstFixes resumedExample).
  assert (L3 : lastPositionsRef t3
               = [newPositionOf fixA; newPositionOf fixB; newPositionOf fixC]).
  { unfold t3.
    change (run TabbedVariant firstFixes resumedExample)
      with (handle TabbedVariant (PositionFix 10 1700000001800 fixC)
              (run TabbedVariant
                 [PositionFix 10 1700000000000 fixA;
                  PositionFix 10 1700000000900 fixB] resumedExample)).
    rewrite after_two_fixes.
    destruct (onPosition_fixes TabbedVariant 10 1700000001800 fixC
                (appendPosition (newPositionOf fixB)
                   (appendPosition (newPositionOf fixA) resumedExample)))
      as [_ ->].
    reflexivity. }
  pose proof (@Tabbed_onPosition_valid 10 fixD t3 (IZR 1800 / 1000 / 60)%R) as H.
  cbv zeta in H. rewrite L3 in H.
  change (getRecentPositions
            [newPositionOf fixA; newPositionOf fixB; newPositionOf fixC] 30)
    with [newPositionOf fixA; newPositionOf fixB; newPositionOf fixC] in H.
  rewrite distance_ABC in H.
  assert (Hd : (0 < 6371 * deg2rad (1003 / 100000))%R).
  { pose proof PI_bounds. unfold deg2rad. lra. }
  destruct H as [_ H]; try reflexivity; try (simpl; lia); try lra.
  rewrite H, formatPace_digits. cbv zeta.
  rewrite (@Math_floor_eq _ 0) by (pose proof pace_ABC_bounds; lra).
  eexists. reflexivity.
Qed.

Lemma smoothed_display :
  exists minutes seconds,
    3 <= minutes < 6
    /\ currentPace (run SmoothedVariant divergingFixes resumedExample)
       = (Js.toString minutes ++ ":" ++ seconds)%string.
Proof.
  unfold divergingFixes, run. rewrite fold_left_app. cbn [fold_left handle].
  fold (run SmoothedVariant firstFixes resumedExample).
  destruct smoothed_third_fix as [Hlast [_ Hc]]. cbv zeta in Hlast, Hc.
  set (u3 := run SmoothedVariant firstFixes resumedExample) in *.
  assert (C4 : currentPace (Smoothed.onPosition 10 1700000002700 fixD u3)
               = currentPace u3).
  { apply onPosition_no_pass.
    destruct (onPosition_last 10 1700000002700 fixD u3) as [E|[Hgt _]];
      [exact E|].
    rewrite Hlast in Hgt. lia. }
  rewrite C4, Hc, formatPace_digits. cbv zeta.
  pose proof pace_AB_bounds as Hb.
  pose proof (Math_floor_bounds
                (IZR 900 / 1000 / 60 / (6371 * deg2rad (3 / 100000)))%R) as Hf.
  eexists. eexists. split; [|reflexivity].
  split.
  - apply Z.lt_succ_r. apply lt_IZR. rewrite succ_IZR. lra.
  - apply lt_IZR. lra.
Qed.

(** C9: there is a stream of fixes, delivered to a recorder that both
    variants reach, after which the tabbed variant (window of 30 seconds,
    no throttle, no history) and the smoothed variant (throttle of 5
    seconds, window of 60 seconds, history of 3) display different paces.
    The stream has four fixes 900 ms apart, a jump of 1.1 km at the third:
    at the fourth the tabbed variant takes the pace over the first three,
    under a minute a kilometre, and the smoothed variant, which took the
    pace over the first two at the third, is held by its throttle. *)
Theorem C9_variants_differ :
  exists (s : State) (fixes : list Event),
    reachable TabbedVariant s
    /\ reachable SmoothedVariant s
    /\ Forall isPositionFix fixes
    /\ currentPace (run TabbedVariant fixes s)
       <> currentPace (run SmoothedVariant fixes s).
Proof.
  exists resumedExample, divergingFixes.
  split; [apply resumedExample_reachable|].
  split; [apply resumedExample_reachable|].
  split; [repeat constructor|].
  destruct tabbed_display as [secT ->].
  destruct smoothed_display as [minutes [secS [Hm ->]]].
  assert (Hcases : minutes = 3 \/ minutes = 4 \/ minutes = 5) by lia.
  destruct Hcases as [ -> | [ -> | -> ] ]; cbn; discriminate.
Qed.

(** ** The pace update of the smoothed variant *)





(** ** The GPX document: facts *)

Section GpxFacts.

Variable numberToString : R -> string.
Variable toISOString : Z -> string.

Local Open Scope string_scope.

Lemma append_assoc (a b c : string) : (a ++ b) ++ c = a ++ (b ++ c).
Proof.
  induction a as [|x a IH]; simpl; [reflexivity|]. rewrite IH. reflexivity.
Qed.

Lemma append_nil_r (a : string) : a ++ "" = a.
Proof.
  induction a as [|x a IH]; simpl; [reflexivity|]. rewrite IH. reflexivity.
Qed.

Lemma appendTrackPoint_trackPoint (heartRates : list HeartRateData)
      (gpx : string) (pos : Position) :
  appendTrackPoint numberToString toISOString heartRates gpx pos = gpx ++ trackPoint numberToString toISOString heartRates pos.
Proof.
  unfold appendTrackPoint, trackPoint. cbv zeta.
  destruct (altitude pos) as [alt|];
    destruct (findClosestHeartRate heartRates (timestamp pos)) as [hr|];
    cbn [Js.truthy]; try destruct (hr =? 0)%Z; cbn [negb];
    rewrite ?append_assoc; reflexivity.
Qed.

(** X1: the document is the header, one track point per fix in the order of
    the fixes, and the footer; a track point has, in this order, its opening
    tag, the elevation exactly when the fix has an altitude, the time, the
    heart-rate extension exactly when the nearest sample answers with a rate
    other than 0, and its closing tag. *)
Lemma generateGPX_structure (activity : Activity) :
  generateGPX numberToString toISOString activity
  = gpxHeader (toISOString (startTime activity))
      ++ String.concat "" (map (trackPoint numberToString toISOString (heartRates activity))
                               (act_positions activity))
      ++ gpxFooter.
Proof.
  unfold generateGPX. cbv zeta.
  rewrite <- append_assoc. f_equal.
  generalize (gpxHeader (toISOString (startTime activity))) as gpx.
  induction (act_positions activity) as [|pos l IH]; intros gpx.
  - simpl. rewrite append_nil_r. reflexivity.
  - cbn [fold_left map]. rewrite IH, appendTrackPoint_trackPoint, append_assoc.
    f_equal. destruct l as [|pos' l]; [simpl; rewrite append_nil_r|]; reflexivity.
Qed.

End GpxFacts.

(** C4, where the code departs from it: for the fix of [zeroRateActivity]
    the nearest sample is found, at distance 0 in time, and answers the rate
    0; the claim asks for the extensions block, and the document has the
    track point with its time and nothing more, since the test of the
    answer takes the rate 0 for no answer. *)
Theorem C4_zero_rate_omitted (numberToString : R -> string)
        (toISOString : Z -> string) :
  decodeHeartRate [Byte.x00; Byte.x00] = Some 0
  /\ findClosestHeartRate (heartRates zeroRateActivity) 1700000005000 = Some 0
  /\ generateGPX numberToString toISOString zeroRateActivity
     = (gpxHeader (toISOString 1700000000000)
          ++ (trkptOpen numberToString
                        (mkPosition 0 0 (Some 5%R) (Some 5%R) None None 1700000005000)
                ++ timeElement (toISOString 1700000005000)
                ++ trkptClose)
          ++ gpxFooter)%string.
Proof.
  split; [reflexivity|]. split; [reflexivity|].
  unfold generateGPX, zeroRateActivity. cbv zeta.
  cbn [act_positions heartRates startTime fold_left].
  unfold appendTrackPoint. cbv zeta.
  cbn [altitude timestamp].
  change (findClosestHeartRate [mkHeartRateData 1700000005000 0] 1700000005000)
    with (Some 0).
  cbn [Js.truthy Z.eqb negb].
  rewrite !append_assoc. reflexivity.
Qed.

(** * Part III: further properties *)

(** ** Geometry *)

Section GeometryMore.

Local Open Scope R_scope.

(** The haversine term is the same from either end. *)
Lemma haversine_term_sym (u v : R) :
  sin (deg2rad (u - v) / 2) * sin (deg2rad (u - v) / 2)
  = sin (deg2rad (v - u) / 2) * sin (deg2rad (v - u) / 2).
Proof.
  replace (deg2rad (u - v) / 2) with (- (deg2rad (v - u) / 2))
    by (unfold deg2rad; field).
  rewrite sin_neg. ring.
Qed.

(** X2: the distance from one fix to another is the distance back. *)
Theorem calculateDistance_symmetric (p q : Position) :
  calculateDistance p q = calculateDistance q p.
Proof.
  unfold calculateDistance. cbv zeta.
  rewrite (haversine_term_sym (latitude q) (latitude p)).
  replace (cos (deg2rad (latitude p)) * cos (deg2rad (latitude q))
           * sin (deg2rad (longitude q - longitude p) / 2)
           * sin (deg2rad (longitude q - longitude p) / 2))
    with (cos (deg2rad (latitude q)) * cos (deg2rad (latitude p))
          * (sin (deg2rad (longitude q - longitude p) / 2)
             * sin (deg2rad (longitude q - longitude p) / 2)))
    by ring.
  rewrite (haversine_term_sym (longitude q) (longitude p)).
  replace (cos (deg2rad (latitude q)) * cos (deg2rad (latitude p))
           * (sin (deg2rad (longitude p - longitude q) / 2)
              * sin (deg2rad (longitude p - longitude q) / 2)))
    with (cos (deg2rad (latitude q)) * cos (deg2rad (latitude p))
          * sin (deg2rad (longitude p - longitude q) / 2)
          * sin (deg2rad (longitude p - longitude q) / 2))
    by ring.
  reflexivity.
Qed.

Lemma calculateDistance_meridian (p q : Position) :
  longitude p = longitude q ->
  0 <= latitude q - latitude p < 180 ->
  calculateDistance p q = 6371 * deg2rad (latitude q - latitude p).
Proof.
  intros Hlon Hlat.
  pose proof PI_bounds as HPI.
  unfold calculateDistance. cbv zeta. rewrite Hlon.
  set (x := deg2rad (latitude q - latitude p) / 2).
  assert (Hx : 0 <= x < PI / 2).
  { unfold x, deg2rad. split.
    - apply Rmult_le_pos; [|lra]. apply Rmult_le_pos; lra.
    - assert ((latitude q - latitude p) * (PI / 180) < 180 * (PI / 180)).
      { apply Rmult_lt_compat_r; lra. }
      lra. }
  replace (deg2rad (longitude q - longitude q) / 2) with 0
    by (unfold deg2rad; field).
  rewrite sin_0.
  assert (Hsin : 0 <= sin x) by (apply sin_ge_0; lra).
  assert (Hcos : 0 < cos x) by (apply cos_gt_0; lra).
  match goal with
  | |- context [sqrt (sin x * sin x + ?t)] =>
      replace (sin x * sin x + t) with (sin x * sin x) by ring
  end.
  replace (1 - sin x * sin x) with (cos x * cos x)
    by (pose proof (sin2_cos2 x) as H; unfold Rsqr in H; lra).
  rewrite (sqrt_square (sin x)) by exact Hsin.
  rewrite (sqrt_square (cos x)) by lra.
  unfold Js.Math_atan2.
  destruct (Rlt_dec 0 (cos x)) as [_|Hn]; [|contradiction].
  change (sin x / cos x) with (tan x).
  rewrite atan_tan by lra.
  unfold x. field.
Qed.

(** X4: between two fixes on the equator, or on one meridian, the second
    east (north) of the first by less than half a turn, the distance is the
    arc between them: 6371 km times the angle in radians. *)
Theorem calculateDistance_arc (p q : Position) :
  (latitude p = 0 /\ latitude q = 0 /\ 0 <= longitude q - longitude p < 180
   -> calculateDistance p q = 6371 * deg2rad (longitude q - longitude p))
  /\ (longitude p = longitude q /\ 0 <= latitude q - latitude p < 180
      -> calculateDistance p q = 6371 * deg2rad (latitude q - latitude p)).
Proof.
  split.
  - intros [Hp [Hq Hlon]]. apply calculateDistance_equator; assumption.
  - intros [Hlon Hlat]. apply calculateDistance_meridian; assumption.
Qed.

End GeometryMore.

Lemma calculateDistance_arc_witness :
  calculateDistance (newPositionOf (equatorFix 0 1700000000000))
                    (newPositionOf (equatorFix (3 / 10000) 1700000010000))
  = (6371 * deg2rad (3 / 10000 - 0))%R.
Proof.
  destruct (calculateDistance_arc
              (newPositionOf (equatorFix 0 1700000000000))
              (newPositionOf (equatorFix (3 / 10000) 1700000010000)))
    as [Hequator _].
  apply Hequator.
  split; [reflexivity|]. split; [reflexivity|].
  cbn [longitude newPositionOf equatorFix coords_longitude]. lra.
Defined.

(** ** The window of recent fixes *)

Lemma filter_twice (A : Type) (f : A -> bool) (l : list A) :
  filter f (filter f l) = filter f l.
Proof.
  induction l as [|a l IH]; simpl; [reflexivity|].
  destruct (f a) eqn:E; simpl; [rewrite E, IH|]; auto.
Qed.

(** The window of a sequence that ends in [lastPos], whatever its length. *)
Lemma getRecentPositions_snoc (l : list Position) (lastPos : Position)
      (seconds : Z) :
  0 <= seconds ->
  getRecentPositions (l ++ [lastPos]) seconds
  = filter (fun pos => timestamp lastPos - seconds * 1000 <=? timestamp pos) l
      ++ [lastPos].
Proof.
  intros Hs. rewrite getRecentPositions_window.
  assert (Hlast : (timestamp lastPos - seconds * 1000 <=? timestamp lastPos) = true)
    by (apply Z.leb_le; lia).
  destruct l as [|a l].
  - reflexivity.
  - rewrite filter_app. cbn [filter]. rewrite Hlast. reflexivity.
Qed.

(** X6: the window of [getRecentPositions], for a span that is not
    negative: it is the input filtered, so its fixes are fixes of the input
    in their order; it is empty only for the empty input; it ends on the
    last fix of the input; all its fixes are at most [seconds] older than
    that one when the input has two fixes or more; and taking the window of
    the window changes nothing. *)
Theorem getRecentPositions_facts (positions : list Position) (seconds : Z) :
  0 <= seconds ->
  (exists keep, getRecentPositions positions seconds = filter keep positions)
  /\ (getRecentPositions positions seconds = [] <-> positions = [])
  /\ (forall l lastPos,
        positions = l ++ [lastPos] ->
        (exists w, getRecentPositions positions seconds = w ++ [lastPos])
        /\ (l <> [] ->
            forall pos, In pos (getRecentPositions positions seconds) ->
                        timestamp lastPos - seconds * 1000 <= timestamp pos))
  /\ getRecentPositions (getRecentPositions positions seconds) seconds
     = getRecentPositions positions seconds.
Proof.
  intros Hs.
  destruct positions as [|p l _] using rev_ind.
  - split; [exists (fun _ => true); reflexivity|].
    split; [split; reflexivity|].
    split; [|reflexivity].
    intros l lastPos H. destruct l; discriminate.
  - rewrite (getRecentPositions_snoc l p Hs).
    set (keep := fun pos => timestamp p - seconds * 1000 <=? timestamp pos).
    assert (Hp : keep p = true) by (apply Z.leb_le; lia).
    split.
    { exists keep. rewrite filter_app. cbn [filter]. rewrite Hp. reflexivity. }
    split.
    { split; intros H; [destruct (filter keep l)|destruct l]; discriminate. }
    split.
    { intros l' lastPos E. apply app_inj_tail in E. destruct E as [<- <-].
      split; [exists (filter keep l); reflexivity|].
      intros _ pos Hin. apply in_app_or in Hin. destruct Hin as [Hin|Hin].
      - apply filter_In in Hin. destruct Hin as [_ Hk]. apply Z.leb_le. exact Hk.
      - destruct Hin as [<-|[]]. lia. }
    rewrite (getRecentPositions_snoc (filter keep l) p Hs).
    fold keep. rewrite filter_twice. reflexivity.
Qed.

Lemma getRecentPositions_facts_witness :
  getRecentPositions
    (getRecentPositions [newPositionOf fixA; newPositionOf fixB] 60) 60
  = getRecentPositions [newPositionOf fixA; newPositionOf fixB] 60.
Proof.
  destruct (@getRecentPositions_facts
              [newPositionOf fixA; newPositionOf fixB] 60 ltac:(lia))
    as [_ [_ [_ H]]].
  exact H.
Defined.

(** In a sequence whose timestamps never go back, no fix is older than the
    first. *)
Lemma timestampsAscend_head (p : Position) (l : list Position) :
  timestampsAscend (p :: l) ->
  forall q, In q l -> timestamp p <= timestamp q.
Proof.
  revert p. induction l as [|a l IH]; intros p H q Hin; [destruct Hin|].
  destruct H as [Hpa Hrest].
  destruct Hin as [<-|Hin]; [exact Hpa|].
  specialize (IH a Hrest q Hin). lia.
Qed.

Lemma timestampsAscend_tail (p : Position) (l : list Position) :
  timestampsAscend (p :: l) -> timestampsAscend l.
Proof. destruct l as [|a l]; [intros _; exact I|intros [_ H]; exact H]. Qed.

(** Filtering such a sequence by a lower bound on the timestamp keeps a
    tail of it. *)
Lemma filter_ascending_tail (cutoff : Z) (l : list Position) :
  timestampsAscend l ->
  exists older, l = older ++ filter (fun pos => cutoff <=? timestamp pos) l.
Proof.
  induction l as [|a l IH]; intros H.
  - exists []. reflexivity.
  - destruct (Z.leb_spec cutoff (timestamp a)) as [Hle|Hgt].
    + exists []. cbn [app]. symmetry.
      apply forallb_filter_id. apply forallb_forall. intros q [<-|Hin].
      * apply Z.leb_le. exact Hle.
      * apply Z.leb_le. pose proof (timestampsAscend_head a l H q Hin). lia.
    + destruct (IH (timestampsAscend_tail a l H)) as [older Holder].
      exists (a :: older). cbn [filter].
      replace (cutoff <=? timestamp a) with false by (symmetry; apply Z.leb_gt; lia).
      cbn [app]. f_equal. exact Holder.
Qed.

(** X7: when the timestamps of the fixes never go back, the window is a
    tail of the sequence. *)
Theorem getRecentPositions_tail (positions : list Position) (seconds : Z) :
  timestampsAscend positions ->
  exists older, positions = older ++ getRecentPositions positions seconds.
Proof.
  intros Hasc. unfold getRecentPositions.
  destruct (List.length positions <=? 1)%nat; [exists []; reflexivity|].
  destruct (nth_error positions (List.length positions - 1)) as [lastPos|];
    [|exists []; reflexivity].
  cbv zeta.
  destruct (filter_ascending_tail (timestamp lastPos - seconds * 1000)
                                  positions Hasc)
    as [older Holder].
  exists older. rewrite Holder at 1. f_equal.
  apply filter_ext. intros pos. rewrite Z.geb_leb. reflexivity.
Qed.

Lemma getRecentPositions_tail_witness :
  exists older,
    [newPositionOf (equatorFix 0 1700000000000);
     newPositionOf (equatorFix (3 / 10000) 1700000040000);
     newPositionOf (equatorFix (6 / 10000) 1700000050000)]
    = older
      ++ getRecentPositions
           [newPositionOf (equatorFix 0 1700000000000);
            newPositionOf (equatorFix (3 / 10000) 1700000040000);
            newPositionOf (equatorFix (6 / 10000) 1700000050000)] 30.
Proof.
  apply getRecentPositions_tail.
  cbn. repeat split; lia.
Defined.

(** ** Heart rate *)

(** X8: the parse of a notification fails, with the RangeError of a read out
    of bounds, exactly when the buffer is shorter than its flags byte asks
    for: 3 bytes with bit 0 set, 2 bytes with bit 0 clear; a rate that is
    parsed is an unsigned 16-bit integer, and an unsigned byte when bit 0 is
    clear. *)
Theorem decodeHeartRate_bounds (value : list Byte.byte) :
  (decodeHeartRate value = None
   <-> match value with
       | [] => True
       | flags :: _ =>
           (List.length value < (if Z.testbit (u8 flags) 0 then 3 else 2))%nat
       end)
  /\ (forall rate, decodeHeartRate value = Some rate ->
                   0 <= rate < 65536
                   /\ match value with
                      | [] => False
                      | flags :: _ => Z.testbit (u8 flags) 0 = false -> rate < 256
                      end).
Proof.
  destruct value as [|flags [|b1 [|b2 rest]]].
  - split; [split; [intros _; exact I|reflexivity]|discriminate].
  - assert (E : decodeHeartRate [flags] = None).
    { unfold decodeHeartRate, getUint16_le, getUint8. cbn [nth_error option_map].
      destruct (negb (Z.land (u8 flags) 1 =? 0)); reflexivity. }
    rewrite E. split; [|discriminate].
    split; [intros _|reflexivity].
    destruct (Z.testbit (u8 flags) 0); simpl; lia.
  - assert (E : decodeHeartRate [flags; b1]
                = if Z.testbit (u8 flags) 0 then None else Some (u8 b1)).
    { unfold decodeHeartRate, getUint16_le, getUint8. cbn [nth_error option_map].
      rewrite land_1_testbit. destruct (Z.testbit (u8 flags) 0); reflexivity. }
    rewrite E. pose proof (u8_range b1) as Hb1.
    destruct (Z.testbit (u8 flags) 0).
    + split; [split; [intros _; simpl; lia|reflexivity]|discriminate].
    + split; [split; [discriminate|simpl; lia]|].
      intros rate H. injection H as <-. split; [lia|intros _; lia].
  - assert (E : decodeHeartRate (flags :: b1 :: b2 :: rest)
                = Some (if Z.testbit (u8 flags) 0
                        then u8 b1 + 256 * u8 b2 else u8 b1)).
    { unfold decodeHeartRate, getUint16_le, getUint8. cbn [nth_error option_map].
      rewrite land_1_testbit. destruct (Z.testbit (u8 flags) 0); [|reflexivity].
      rewrite (lor_shiftl_8 (u8 b2) (u8_range b1)). reflexivity. }
    rewrite E. pose proof (u8_range b1) as Hb1. pose proof (u8_range b2) as Hb2.
    destruct (Z.testbit (u8 flags) 0).
    + split; [split; [discriminate|simpl; lia]|].
      intros rate H.
      assert (Hr : rate = u8 b1 + 256 * u8 b2) by congruence.
      split; [lia|discriminate].
    + split; [split; [discriminate|simpl; lia]|].
      intros rate H.
      assert (Hr : rate = u8 b1) by congruence.
      split; [lia|intros _; lia].
Qed.

(** There is one earliest nearest sample. *)
Lemma earliestClosest_unique (heartRates : list HeartRateData) (timestamp : Z)
      (i j : nat) (h h' : HeartRateData) :
  earliestClosest heartRates timestamp i h ->
  earliestClosest heartRates timestamp j h' ->
  i = j /\ h = h'.
Proof.
  intros [Hi [Hmin Hfirst]] [Hj [Hmin' Hfirst']].
  assert (E : i = j).
  { destruct (Nat.lt_trichotomy i j) as [Hlt|[Heq|Hgt]]; [|exact Heq|].
    - pose proof (Hfirst' i h Hlt Hi). pose proof (Hmin j h' Hj). lia.
    - pose proof (Hfirst j h' Hgt Hj). pose proof (Hmin' i h Hi). lia. }
  split; [exact E|]. subst j. congruence.
Qed.

Lemma earliestClosest_rate (first : HeartRateData) (rest : list HeartRateData)
      (timestamp : Z) (i : nat) (h : HeartRateData) :
  earliestClosest (first :: rest) timestamp i h ->
  findClosestHeartRate (first :: rest) timestamp
  = if hrDiff timestamp h <=? 10000 then Some (heartRate h) else None.
Proof.
  intros H.
  destruct (findClosestHeartRate_scan first rest timestamp) as [j [h' [H' E]]].
  destruct (earliestClosest_unique H H') as [_ <-]. exact E.
Qed.

(** X9: one more sample at the end of the sequence changes the answer of
    [findClosestHeartRate] only when it is strictly nearer to the target than
    every sample before it, and then the answer is about the new sample. *)
Theorem findClosestHeartRate_snoc (first : HeartRateData)
        (rest : list HeartRateData) (h : HeartRateData) (timestamp : Z) :
  ((exists h0, In h0 (first :: rest) /\ hrDiff timestamp h0 <= hrDiff timestamp h)
   -> findClosestHeartRate ((first :: rest) ++ [h]) timestamp
      = findClosestHeartRate (first :: rest) timestamp)
  /\ ((forall h0, In h0 (first :: rest) -> hrDiff timestamp h < hrDiff timestamp h0)
      -> findClosestHeartRate ((first :: rest) ++ [h]) timestamp
         = if hrDiff timestamp h <=? 10000 then Some (heartRate h) else None).
Proof.
  set (l := first :: rest).
  destruct (findClosestHeartRate_scan first (rest ++ [h]) timestamp)
    as [i [h1 [H1 E1]]].
  change (first :: rest ++ [h]) with (l ++ [h]) in H1, E1.
  destruct H1 as [Hi [Hmin Hfirst]].
  assert (Hend : nth_error (l ++ [h]) (List.length l) = Some h).
  { rewrite nth_error_app2 by lia. rewrite Nat.sub_diag. reflexivity. }
  assert (Hbound : (i < List.length (l ++ [h]))%nat)
    by (apply nth_error_Some; rewrite Hi; discriminate).
  rewrite length_app in Hbound. simpl List.length in Hbound.
  split.
  - intros [h0 [Hin Hle]].
    apply In_nth_error in Hin. destruct Hin as [k Hk].
    assert (Hklt : (k < List.length l)%nat)
      by (apply nth_error_Some; rewrite Hk; discriminate).
    assert (Hk' : nth_error (l ++ [h]) k = Some h0)
      by (rewrite nth_error_app1 by exact Hklt; exact Hk).
    assert (Hilt : (i < List.length l)%nat).
    { destruct (Nat.eq_dec i (List.length l)) as [->|Hne]; [|simpl in *; lia].
      rewrite Hend in Hi. injection Hi as <-.
      pose proof (Hfirst k h0 Hklt Hk'). lia. }
    rewrite E1. symmetry. apply (@earliestClosest_rate first rest timestamp i h1).
    fold l. split; [|split].
    + rewrite nth_error_app1 in Hi by exact Hilt. exact Hi.
    + intros j h' Hj. apply (Hmin j).
      rewrite nth_error_app1; [exact Hj|].
      apply nth_error_Some. rewrite Hj. discriminate.
    + intros j h' Hlt Hj. apply (Hfirst j h' Hlt).
      rewrite nth_error_app1; [exact Hj|].
      apply nth_error_Some. rewrite Hj. discriminate.
  - intros Hall.
    assert (Hieq : i = List.length l).
    { destruct (Nat.eq_dec i (List.length l)) as [E|Hne]; [exact E|].
      assert (Hilt : (i < List.length l)%nat) by (simpl in *; lia).
      rewrite nth_error_app1 in Hi by exact Hilt.
      pose proof (Hall h1 (nth_error_In _ _ Hi)).
      pose proof (Hmin (List.length l) h Hend). lia. }
    subst i. rewrite Hend in Hi. injection Hi as <-. exact E1.
Qed.

Lemma findClosestHeartRate_snoc_witness :
  findClosestHeartRate
    ([mkHeartRateData 5000 61; mkHeartRateData 9000 95] ++ [mkHeartRateData 9000 70])
    7000
  = findClosestHeartRate [mkHeartRateData 5000 61; mkHeartRateData 9000 95] 7000.
Proof.
  destruct (findClosestHeartRate_snoc
              (mkHeartRateData 5000 61) [mkHeartRateData 9000 95]
              (mkHeartRateData 9000 70) 7000) as [Hsame _].
  apply Hsame. exists (mkHeartRateData 5000 61).
  split; [left; reflexivity|].
  unfold hrDiff. simpl. lia.
Defined.

(** ** The two variants, apart from the pace *)

Lemma sansPace_Smoothed_paceUpdate (now : Z) (s : State) :
  sansPace (Smoothed.paceUpdate now s) = sansPace s.
Proof.
  unfold Smoothed.paceUpdate.
  destruct (5000 <? now - lastPaceUpdateRef s); [|reflexivity].
  cbv zeta. destruct (Smoothed.rawPace _); reflexivity.
Qed.

Lemma sansPace_Tabbed_paceUpdate (s : State) :
  sansPace (Tabbed.paceUpdate s) = sansPace s.
Proof.
  unfold Tabbed.paceUpdate. cbv zeta.
  destruct (1 <? _)%nat; [|reflexivity].
  destruct (windowMinutes _) as [m|]; [|reflexivity].
  destruct (Js.Rgtb m 0); [|reflexivity].
  destruct (Req_EM_T _ 0); reflexivity.
Qed.

Ltac sansPace_fields H :=
  unfold sansPace in H;
  injection H as Hrun Htime Hdist Hpos Hlaps Hhr Hdata Hcompl Hact
                   Htimer Hlast Hstart.

Lemma sansPace_appendPosition (p : Position) (s1 s2 : State) :
  sansPace s1 = sansPace s2 ->
  sansPace (appendPosition p s1) = sansPace (appendPosition p s2).
Proof.
  intros H. sansPace_fields H.
  unfold sansPace, appendPosition. simpl. congruence.
Qed.

Lemma sansPace_Smoothed_onPosition (time now : Z) (position : GeolocationPosition)
      (s : State) :
  sansPace (Smoothed.onPosition time now position s)
  = sansPace (fixSansPace position s).
Proof.
  unfold Smoothed.onPosition, fixSansPace. cbv zeta.
  apply sansPace_appendPosition.
  destruct (1 <? _)%nat; [|reflexivity].
  destruct (_ && _); [|reflexivity].
  apply sansPace_Smoothed_paceUpdate.
Qed.

Lemma sansPace_Tabbed_onPosition (time : Z) (position : GeolocationPosition)
      (s : State) :
  sansPace (Tabbed.onPosition time position s)
  = sansPace (fixSansPace position s).
Proof.
  unfold Tabbed.onPosition, fixSansPace. cbv zeta.
  apply sansPace_appendPosition.
  destruct (1 <? _)%nat; [|reflexivity].
  destruct (_ && _); [|reflexivity].
  apply sansPace_Tabbed_paceUpdate.
Qed.

Lemma sansPace_fixSansPace (position : GeolocationPosition) (s1 s2 : State) :
  sansPace s1 = sansPace s2 ->
  sansPace (fixSansPace position s1) = sansPace (fixSansPace position s2).
Proof.
  intros H. pose proof H as H'. sansPace_fields H.
  unfold fixSansPace. cbv zeta.
  apply sansPace_appendPosition. rewrite Hlast.
  destruct (1 <? _)%nat; [|exact H'].
  unfold sansPace. simpl. congruence.
Qed.

Lemma sansPace_recordLap (s1 s2 : State) :
  sansPace s1 = sansPace s2 -> sansPace (recordLap s1) = sansPace (recordLap s2).
Proof.
  intros H. pose proof H as H'. sansPace_fields H.
  unfold recordLap. rewrite Hrun.
  destruct (negb (isRunning s2)); [exact H'|]. cbv zeta.
  assert (Hlen : List.length (laps s1) = List.length (laps s2)).
  { rewrite <- (length_map lapSansPace (laps s1)), Hlaps. apply length_map. }
  unfold sansPace. simpl. rewrite !map_app. simpl.
  unfold lapSansPace at 2 4. simpl.
  rewrite Hlen, Htime, Hdist, Hdata, Hlaps. congruence.
Qed.

Lemma sansPace_onHeartRate (value : option (list Byte.byte)) (now : Z)
      (s1 s2 : State) :
  sansPace s1 = sansPace s2 ->
  sansPace (onHeartRate value now s1) = sansPace (onHeartRate value now s2).
Proof.
  intros H. pose proof H as H'. sansPace_fields H.
  unfold onHeartRate. destruct value as [b|]; [|exact H'].
  destruct (decodeHeartRate b); [|exact H'].
  unfold sansPace. simpl. congruence.
Qed.

Lemma sansPace_timerEffect (now : Z) (s1 s2 : State) :
  sansPace s1 = sansPace s2 ->
  sansPace (timerEffect now s1) = sansPace (timerEffect now s2).
Proof.
  intros H. pose proof H as H'. sansPace_fields H.
  unfold timerEffect. rewrite Hrun, Hstart, Htimer, Htime, Hpos.
  destruct (isRunning s2) eqn:Hrun2.
  - destruct (startTimeRef s2) eqn:Hstart2; unfold sansPace; simpl; congruence.
  - destruct (timerRef s2) eqn:Htimer2; [|exact H'].
    destruct (_ && _); [|exact H'].
    unfold sansPace, buildActivity, activitySansPace. simpl. congruence.
Qed.

Lemma sansPace_perform (step : Step) (s1 s2 : State) :
  sansPace s1 = sansPace s2 ->
  sansPace (perform TabbedVariant step s1)
  = sansPace (perform SmoothedVariant step s2).
Proof.
  intros H. destruct step as [e|now]; [|apply sansPace_timerEffect; exact H].
  destruct e; cbn [perform handle].
  - pose proof H as H'. sansPace_fields H.
    unfold startStop, sansPace. simpl. congruence.
  - apply sansPace_recordLap. exact H.
  - sansPace_fields H. unfold sansPace. simpl.
    rewrite Hhr, Htimer. reflexivity.
  - sansPace_fields H. unfold tick, sansPace. simpl. congruence.
  - rewrite sansPace_Tabbed_onPosition, sansPace_Smoothed_onPosition.
    apply sansPace_fixSansPace. exact H.
  - sansPace_fields H. unfold sansPace. simpl. congruence.
  - apply sansPace_onHeartRate. exact H.
Qed.

(** X10: the handlers of the two variants, given the same events and the
    same runs of the timer effect, end with the same running flag, counter,
    distance, fixes, samples, laps (their pace strings apart) and Activity
    (its laps' pace strings apart), and so with the same GPX document to
    export: of what the handlers write, the variants differ in the pace
    alone.  The watch, which the geolocation effect writes, is not part of
    this. *)
Theorem variants_agree_sans_pace (steps : list Step) (s : State)
        (numberToString : R -> string) (toISOString : Z -> string) :
  sansPace (session TabbedVariant steps s)
  = sansPace (session SmoothedVariant steps s)
  /\ option_map (generateGPX numberToString toISOString)
                (activity (session TabbedVariant steps s))
     = option_map (generateGPX numberToString toISOString)
                  (activity (session SmoothedVariant steps s)).
Proof.
  assert (H : sansPace (session TabbedVariant steps s)
              = sansPace (session SmoothedVariant steps s)).
  { unfold session.
    assert (G : forall s1 s2, sansPace s1 = sansPace s2 ->
                  sansPace (fold_left (fun s step => perform TabbedVariant step s) steps s1)
                  = sansPace (fold_left (fun s step => perform SmoothedVariant step s) steps s2)).
    { induction steps as [|step steps IH]; intros s1 s2 E; [exact E|].
      cbn [fold_left]. apply IH. apply sansPace_perform. exact E. }
    apply G. reflexivity. }
  split; [exact H|].
  sansPace_fields H.
  destruct (activity (session TabbedVariant steps s)) as [a1|];
    destruct (activity (session SmoothedVariant steps s)) as [a2|];
    try discriminate; [|reflexivity].
  simpl in Hact. injection Hact as Hs He Ht Hd Hp Hh Hl.
  simpl. unfold generateGPX. rewrite Hs, Hp, Hh. reflexivity.
Qed.

(** ** Sessions *)

(** Reading a cell of the recorder through a write of the pace cells. *)
Ltac through_paceCells :=
  cbn [paceCells set_currentPace set_recentPacesRef set_lastPaceUpdateRef
       isRunning time distance positions laps heartRateData activity
       startTimeRef lastPositionsRef].

(** The callback on a fix, in either variant, is the refresh of the
    distance and the append of the fix, and then some writing of the pace
    cells. *)
Lemma PositionFix_shape (v : Variant) (time now : Z)
      (position : GeolocationPosition) (s : State) :
  exists p l r,
    handle v (PositionFix time now position) s
    = paceCells p l r (fixSansPace position s).
Proof.
  assert (HS : forall now s, exists p l r,
               Smoothed.paceUpdate now s = paceCells p l r s).
  { intros now' s'. destruct s'. unfold Smoothed.paceUpdate.
    destruct (5000 <? _);
      [|exists currentPace0, lastPaceUpdateRef0, recentPacesRef0; reflexivity].
    cbv zeta. destruct (Smoothed.rawPace _) as [pace|].
    - eexists. exists now', (Smoothed.pushPace recentPacesRef0 pace). reflexivity.
    - exists currentPace0, now', recentPacesRef0. reflexivity. }
  assert (HT : forall s, exists p l r, Tabbed.paceUpdate s = paceCells p l r s).
  { intros s'. destruct s'. unfold Tabbed.paceUpdate. cbv zeta.
    destruct (1 <? _)%nat;
      [|exists currentPace0, lastPaceUpdateRef0, recentPacesRef0; reflexivity].
    destruct (windowMinutes _) as [m|];
      [|exists currentPace0, lastPaceUpdateRef0, recentPacesRef0; reflexivity].
    destruct (Js.Rgtb m 0);
      [|exists currentPace0, lastPaceUpdateRef0, recentPacesRef0; reflexivity].
    destruct (Req_EM_T _ 0);
      eexists; exists lastPaceUpdateRef0, recentPacesRef0; reflexivity. }
  assert (Hsame : forall s0 : State,
             exists p l r,
               appendPosition (newPositionOf position) s0
               = paceCells p l r (appendPosition (newPositionOf position) s0)).
  { intros s0. exists (currentPace s0), (lastPaceUpdateRef s0), (recentPacesRef s0).
    destruct s0. reflexivity. }
  destruct v; cbn [handle].
  - unfold Tabbed.onPosition, fixSansPace. cbv zeta.
    destruct (1 <? _)%nat; [|apply Hsame].
    destruct (_ && _); [|apply Hsame].
    destruct (HT (set_distance (calculateTotalDistance (lastPositionsRef s)) s))
      as [p [l [r E]]].
    exists p, l, r. rewrite E. reflexivity.
  - unfold Smoothed.onPosition, fixSansPace. cbv zeta.
    destruct (1 <? _)%nat; [|apply Hsame].
    destruct (_ && _); [|apply Hsame].
    destruct (HS now (set_distance (calculateTotalDistance (lastPositionsRef s)) s))
      as [p [l [r E]]].
    exists p, l, r. rewrite E. reflexivity.
Qed.

(** What holds at the start and is kept by every step holds at the end. *)
Lemma session_invariant (v : Variant) (P : State -> Prop) :
  P initialState ->
  (forall step s, P s -> P (perform v step s)) ->
  forall steps, P (session v steps initialState).
Proof.
  intros H0 Hstep steps. unfold session.
  generalize initialState H0.
  induction steps as [|step steps IH]; intros s Hs; [exact Hs|].
  cbn [fold_left]. apply IH. apply Hstep. exact Hs.
Qed.

Lemma fixSansPace_distance (position : GeolocationPosition) (s : State) :
  distance s = calculateTotalDistance (removelast (positions s)) ->
  lastPositionsRef s = positions s ->
  distance (fixSansPace position s)
  = calculateTotalDistance (removelast (positions (fixSansPace position s)))
  /\ positions (fixSansPace position s) = positions s ++ [newPositionOf position]
  /\ lastPositionsRef (fixSansPace position s)
     = positions s ++ [newPositionOf position].
Proof.
  intros Hd Hl. unfold fixSansPace. cbv zeta. rewrite Hl.
  destruct (1 <? List.length (positions s))%nat eqn:E;
    cbn [distance positions lastPositionsRef appendPosition set_distance
         set_positions set_lastPositionsRef];
    rewrite removelast_last.
  - repeat split.
  - split; [|split; reflexivity].
    rewrite Hd. apply Nat.ltb_ge in E.
    destruct (positions s) as [|a [|b l]]; [reflexivity|reflexivity|].
    simpl in E. lia.
Qed.

(** One step keeps the distance equal to the total over the fixes but the
    last. *)
Lemma distance_step (v : Variant) (step : Step) (s : State) :
  distance s = calculateTotalDistance (removelast (positions s))
  /\ lastPositionsRef s = positions s ->
  distance (perform v step s)
  = calculateTotalDistance (removelast (positions (perform v step s)))
  /\ lastPositionsRef (perform v step s) = positions (perform v step s).
Proof.
  intros [Hd Hl]. destruct step as [e|now].
  - destruct e; cbn [perform]; try cbn [handle].
    + split; assumption.
    + unfold recordLap. destruct (negb (isRunning s)); split; assumption.
    + destruct v; split; reflexivity.
    + split; assumption.
    + destruct (PositionFix_shape v time0 now position s) as [p [l [r E]]].
      cbn [handle] in E. rewrite E.
      destruct (fixSansPace_distance position s Hd Hl) as [H1 [H2 H3]].
      through_paceCells. split; [exact H1|congruence].
    + split; assumption.
    + unfold onHeartRate. destruct value as [b|]; [|split; assumption].
      destruct (decodeHeartRate b); split; assumption.
  - cbn [perform]. unfold timerEffect.
    destruct (isRunning s); [destruct (startTimeRef s); split; assumption|].
    destruct (timerRef s); [|split; assumption].
    destruct (_ && _); split; assumption.
Qed.

(** X11: the displayed distance runs one fix behind.  At every point of a
    session it is the total distance over the recorded fixes but the last:
    the callback takes the total before the render appends the fix that it
    came with.  The sequence that the callbacks read is the recorded one. *)
Theorem distance_one_fix_behind (v : Variant) (steps : list Step) :
  let s := session v steps initialState in
  distance s = calculateTotalDistance (removelast (positions s))
  /\ lastPositionsRef s = positions s.
Proof.
  cbv zeta.
  exact (@session_invariant v
           (fun s => distance s = calculateTotalDistance (removelast (positions s))
                     /\ lastPositionsRef s = positions s)
           (conj eq_refl eq_refl) (distance_step v) steps).
Qed.

Lemma extends_refl (A : Type) (l : list A) : extends l l.
Proof. exists []. symmetry. apply app_nil_r. Qed.

Lemma extends_snoc (A : Type) (l : list A) (x : A) : extends l (l ++ [x]).
Proof. exists [x]. reflexivity. Qed.

Lemma extends_trans (A : Type) (l1 l2 l3 : list A) :
  extends l1 l2 -> extends l2 l3 -> extends l1 l3.
Proof.
  intros [m1 ->] [m2 ->]. exists (m1 ++ m2). rewrite app_assoc. reflexivity.
Qed.

Lemma fixSansPace_frame (position : GeolocationPosition) (s : State) :
  positions (fixSansPace position s) = positions s ++ [newPositionOf position]
  /\ laps (fixSansPace position s) = laps s
  /\ heartRateData (fixSansPace position s) = heartRateData s
  /\ time (fixSansPace position s) = time s
  /\ activity (fixSansPace position s) = activity s
  /\ startTimeRef (fixSansPace position s) = startTimeRef s
  /\ isRunning (fixSansPace position s) = isRunning s.
Proof.
  unfold fixSansPace. cbv zeta.
  destruct (1 <? _)%nat; repeat split.
Qed.

(** One step that is not a reset: the sequences grow at their end or stay,
    the counter stays or goes up by one, a start time that is set stays, and
    the Activity stays unless the timer effect builds one. *)
Lemma perform_grows (v : Variant) (step : Step) (s : State) :
  step <> StepEvent PressReset ->
  let s' := perform v step s in
  extends (positions s) (positions s')
  /\ extends (laps s) (laps s')
  /\ extends (heartRateData s) (heartRateData s')
  /\ time s <= time s' <= time s + 1
  /\ (forall t, startTimeRef s = Some t -> startTimeRef s' = Some t)
  /\ (activity s' = activity s
      \/ exists now,
          step = StepEffect now /\ isRunning s = false
          /\ 0 < time s /\ positions s <> []
          /\ s' = set_activity true (Some (buildActivity now s)) s).
Proof.
  intros Hstep. cbv zeta.
  destruct step as [e|now]; cbn [perform].
  - destruct e; try cbn [handle].
    + repeat split; try apply extends_refl; try (simpl; lia); auto.
    + unfold recordLap. destruct (negb (isRunning s)).
      * repeat split; try apply extends_refl; try (simpl; lia); auto.
      * cbv zeta. repeat split; try apply extends_refl; try apply extends_snoc;
          try (simpl; lia); auto.
    + contradiction.
    + repeat split; try apply extends_refl; try (simpl; lia); auto.
    + destruct (PositionFix_shape v time0 now position s) as [p [l [r E]]].
      cbn [handle] in E. rewrite E.
      destruct (fixSansPace_frame position s) as [Hp [Hl [Hh [Ht [Ha [Hs _]]]]]].
      through_paceCells. rewrite Hp, Hl, Hh, Ht, Ha, Hs.
      repeat split; try apply extends_refl; try apply extends_snoc;
        try lia; auto.
    + repeat split; try apply extends_refl; try (simpl; lia); auto.
    + unfold onHeartRate. destruct value as [b|].
      * destruct (decodeHeartRate b).
        -- repeat split; try apply extends_refl; try apply extends_snoc;
             try (simpl; lia); auto.
        -- repeat split; try apply extends_refl; try (simpl; lia); auto.
      * repeat split; try apply extends_refl; try (simpl; lia); auto.
  - unfold timerEffect. destruct (isRunning s) eqn:Hrun.
    + destruct (startTimeRef s) eqn:Hstart;
        repeat split; try apply extends_refl; try (simpl; lia); auto.
      * intros t Ht. simpl. rewrite Hstart. exact Ht.
      * intros t Ht. discriminate.
    + destruct (timerRef s).
      * destruct (0 <? time s) eqn:Ht;
          [|repeat split; try apply extends_refl; try (simpl; lia); auto].
        destruct (0 <? List.length (positions s))%nat eqn:Hp;
          [|repeat split; try apply extends_refl; try (simpl; lia); auto].
        cbn [andb].
        repeat split; try apply extends_refl; try (simpl; lia); auto.
        right. exists now. apply Z.ltb_lt in Ht. apply Nat.ltb_lt in Hp.
        repeat split; auto.
        destruct (positions s); [simpl in Hp; lia|discriminate].
      * repeat split; try apply extends_refl; try (simpl; lia); auto.
Qed.

Lemma lapsNumbered_snoc (laps : list Lap) (lap : Lap) :
  lapsNumbered laps ->
  number lap = Z.of_nat (List.length laps) + 1 ->
  lapsNumbered (laps ++ [lap]).
Proof.
  intros H Hn i lap' Hi.
  destruct (Nat.lt_ge_cases i (List.length laps)) as [Hlt|Hge].
  - rewrite nth_error_app1 in Hi by exact Hlt. exact (H i lap' Hi).
  - rewrite nth_error_app2 in Hi by exact Hge.
    destruct (i - List.length laps)%nat as [|k] eqn:Hk; simpl in Hi.
    + injection Hi as <-. rewrite Hn. lia.
    + destruct k; discriminate.
Qed.

Lemma lapsNumbered_perform (v : Variant) (step : Step) (s : State) :
  lapsNumbered (laps s) -> lapsNumbered (laps (perform v step s)).
Proof.
  intros H. destruct step as [e|now]; cbn [perform].
  - destruct e; try cbn [handle]; try exact H.
    + unfold recordLap. destruct (negb (isRunning s)); [exact H|].
      cbv zeta. cbn [laps set_laps]. apply lapsNumbered_snoc; [exact H|reflexivity].
    + destruct v; intros [|i] lap Hi; discriminate.
    + destruct (PositionFix_shape v time0 now position s) as [p [l [r E]]].
      cbn [handle] in E. rewrite E.
      destruct (fixSansPace_frame position s) as [_ [Hl _]].
      through_paceCells. rewrite Hl. exact H.
    + unfold onHeartRate. destruct value as [b|]; [|exact H].
      destruct (decodeHeartRate b); exact H.
  - unfold timerEffect.
    destruct (isRunning s); [destruct (startTimeRef s); exact H|].
    destruct (timerRef s); [|exact H]. destruct (_ && _); exact H.
Qed.

Lemma Step_reset_dec (step : Step) :
  {step = StepEvent PressReset} + {step <> StepEvent PressReset}.
Proof.
  destruct step as [[]|]; (left; reflexivity) || (right; discriminate).
Qed.

Lemma activityConsistent_grows (s s' : State) (a : Activity) :
  activityConsistent s a ->
  extends (positions s) (positions s') ->
  extends (laps s) (laps s') ->
  extends (heartRateData s) (heartRateData s') ->
  time s <= time s' ->
  activityConsistent s' a.
Proof.
  intros [Hd [Hne [Ht [Hn [Hp [Hh Hl]]]]]] Ep El Eh Et.
  repeat split; try assumption; try lia.
  - exact (extends_trans Hp Ep).
  - exact (extends_trans Hh Eh).
  - exact (extends_trans Hl El).
Qed.

(** X12: whenever a session holds an Activity, that Activity is consistent:
    it has at least one fix and a positive total time, its laps carry the
    ordinals 1, 2, 3, ..., and the time, fixes, samples and laps of the
    recorder are those of the Activity or come after them; its total
    distance is the distance over its own fixes but the last, so the leg to
    the last fix is not in the total that is exported. *)
Theorem activity_is_consistent (v : Variant) (steps : list Step) :
  match activity (session v steps initialState) with
  | Some a => activityConsistent (session v steps initialState) a
  | None => True
  end.
Proof.
  assert (Hinit : (lapsNumbered (laps initialState)
                   /\ distance initialState
                      = calculateTotalDistance (removelast (positions initialState))
                   /\ lastPositionsRef initialState = positions initialState)
                  /\ match activity initialState with
                     | Some a => activityConsistent initialState a
                     | None => True
                     end).
  { split; [split; [intros [|i] lap Hi; discriminate|split; reflexivity]|exact I]. }
  refine (proj2 (@session_invariant v
            (fun s => (lapsNumbered (laps s)
                       /\ distance s
                          = calculateTotalDistance (removelast (positions s))
                       /\ lastPositionsRef s = positions s)
                      /\ match activity s with
                         | Some a => activityConsistent s a
                         | None => True
                         end) Hinit _ steps)).
  intros step s [[Hlaps Hdist] Hact].
  split.
  { split; [apply lapsNumbered_perform; exact Hlaps|].
    apply distance_step. exact Hdist. }
  destruct (Step_reset_dec step) as [->|Hstep].
  { destruct v; exact I. }
  destruct (perform_grows v s Hstep) as [Ep [El [Eh [Et [_ Ha]]]]].
  destruct Ha as [Ha|[now [_ [_ [Htime [Hpos Hs']]]]]].
  - rewrite Ha. destruct (activity s) as [a|]; [|exact I].
    apply activityConsistent_grows with (s := s); try assumption. lia.
  - rewrite Hs'. cbn [activity set_activity].
    unfold activityConsistent, buildActivity. cbn.
    destruct Hdist as [Hdist _].
    repeat split; try assumption; try lia; try apply extends_refl.
Qed.

Lemma pushPace_nonempty_positive (recentPaces : list R) (pace : R) :
  Forall (fun p => 0 < p)%R recentPaces -> (0 < pace)%R ->
  Smoothed.pushPace recentPaces pace <> []
  /\ Forall (fun p => 0 < p)%R (Smoothed.pushPace recentPaces pace).
Proof.
  intros Hall Hp.
  assert (Hpushed : Forall (fun p => 0 < p)%R (recentPaces ++ [pace])).
  { apply Forall_app. split; [exact Hall|]. constructor; [exact Hp|constructor]. }
  unfold Smoothed.pushPace. cbv zeta.
  destruct (Nat.ltb_spec 3 (List.length (recentPaces ++ [pace]))) as [Hlt|Hge].
  - destruct (recentPaces ++ [pace]) as [|a [|b l]] eqn:E;
      simpl in Hlt; try lia.
    split; [discriminate|]. simpl. inversion Hpushed. assumption.
  - split; [|exact Hpushed]. destruct recentPaces; discriminate.
Qed.

Lemma paceUpdate_display (now : Z) (s : State) :
  currentPace s = displayedPaceOf (recentPacesRef s)
  /\ Forall (fun p => 0 < p)%R (recentPacesRef s) ->
  currentPace (Smoothed.paceUpdate now s)
  = displayedPaceOf (recentPacesRef (Smoothed.paceUpdate now s))
  /\ Forall (fun p => 0 < p)%R (recentPacesRef (Smoothed.paceUpdate now s)).
Proof.
  intros [Hc Hall]. unfold Smoothed.paceUpdate.
  destruct (5000 <? now - lastPaceUpdateRef s); [|split; assumption].
  cbv zeta. cbn [lastPositionsRef set_lastPaceUpdateRef].
  destruct (Smoothed.rawPace _) as [pace|] eqn:Hraw; [|split; assumption].
  cbn [currentPace recentPacesRef set_currentPace set_recentPacesRef
       set_lastPaceUpdateRef].
  destruct (rawPace_some _ Hraw) as [m [_ [Hm [Hd ->]]]].
  assert (Hpos : (0 < m / calculateTotalDistance
                         (getRecentPositions (lastPositionsRef s) 60))%R)
    by (apply Rdiv_lt_0_compat; assumption).
  destruct (pushPace_nonempty_positive Hall Hpos) as [Hne Hall'].
  split; [|exact Hall'].
  unfold displayedPaceOf.
  destruct (Smoothed.pushPace _ _); [contradiction|reflexivity].
Qed.

(** X13: at every point of a session of the smoothed variant the displayed
    pace is the formatted mean of the pace history, or 0:00 while the
    history is empty; the history holds at most three raw paces, all of them
    positive. *)
Theorem smoothed_display_is_mean (steps : list Step) :
  let s := session SmoothedVariant steps initialState in
  currentPace s = displayedPaceOf (recentPacesRef s)
  /\ Forall (fun p => 0 < p)%R (recentPacesRef s)
  /\ (List.length (recentPacesRef s) <= 3)%nat.
Proof.
  cbv zeta.
  assert (H : (currentPace (session SmoothedVariant steps initialState)
               = displayedPaceOf
                   (recentPacesRef (session SmoothedVariant steps initialState))
               /\ Forall (fun p => 0 < p)%R
                         (recentPacesRef (session SmoothedVariant steps initialState)))
              /\ (List.length
                    (recentPacesRef (session SmoothedVariant steps initialState))
                  <= 3)%nat).
  { apply (@session_invariant SmoothedVariant
             (fun s => (currentPace s = displayedPaceOf (recentPacesRef s)
                        /\ Forall (fun p => 0 < p)%R (recentPacesRef s))
                       /\ (List.length (recentPacesRef s) <= 3)%nat)).
    - split; [split; [reflexivity|constructor]|simpl; lia].
    - intros step s [Hd Hlen]. destruct step as [e|now]; cbn [perform].
      + destruct e; cbn [handle].
        * split; assumption.
        * unfold recordLap. destruct (negb (isRunning s)); split; assumption.
        * split; [split; [reflexivity|constructor]|simpl; lia].
        * split; assumption.
        * destruct (onPosition_paceUpdate time0 now position s)
            as [s1 [_ [_ [Hr [Hc [-> | ->]]]]]];
            cbn [appendPosition currentPace recentPacesRef
                 set_lastPositionsRef set_positions].
          -- rewrite Hr, Hc. split; assumption.
          -- split.
             ++ apply paceUpdate_display. rewrite Hr, Hc. exact Hd.
             ++ unfold Smoothed.paceUpdate.
                destruct (5000 <? now - lastPaceUpdateRef s1);
                  [|rewrite Hr; exact Hlen].
                cbv zeta. destruct (Smoothed.rawPace _) as [pace|].
                ** cbn. apply pushPace_length. rewrite Hr. exact Hlen.
                ** cbn. rewrite Hr. exact Hlen.
        * split; assumption.
        * unfold onHeartRate. destruct value as [b|]; [|split; assumption].
          destruct (decodeHeartRate b); split; assumption.
      + destruct (timerEffect_pace now s) as [_ [Hr Hc]].
        rewrite Hr, Hc. split; assumption. }
  destruct H as [[Hc Hall] Hlen]. repeat split; assumption.
Qed.

(** X14: in a stretch of a session without a reset nothing recorded is lost:
    the fixes, the laps and the heart-rate samples at its end are those at
    its start with more after them, the seconds counter has not gone back,
    and a start time that was set is still the same. *)
Theorem session_append_only (v : Variant) (steps : list Step) (s : State) :
  noReset steps ->
  let s' := session v steps s in
  extends (positions s) (positions s')
  /\ extends (laps s) (laps s')
  /\ extends (heartRateData s) (heartRateData s')
  /\ time s <= time s'
  /\ (forall t, startTimeRef s = Some t -> startTimeRef s' = Some t).
Proof.
  intros Hno. cbv zeta. unfold session. revert s.
  induction Hno as [|step steps Hstep _ IH]; intros s.
  - cbn [fold_left]. repeat split; try apply extends_refl; auto. lia.
  - cbn [fold_left].
    destruct (perform_grows v s Hstep) as [Ep [El [Eh [Et [Hs _]]]]].
    destruct (IH (perform v step s)) as [Ep' [El' [Eh' [Et' Hs']]]].
    repeat split.
    + exact (extends_trans Ep Ep').
    + exact (extends_trans El El').
    + exact (extends_trans Eh Eh').
    + lia.
    + intros t Ht. apply Hs', Hs, Ht.
Qed.

Lemma session_append_only_witness :
  extends (heartRateData runningExample)
          (heartRateData
             (session SmoothedVariant
                [StepEvent (HeartRateNotification (Some [Byte.x00; Byte.x48]) 1800);
                 StepEvent PressLap; StepEffect 1900]
                runningExample)).
Proof.
  apply (@session_append_only SmoothedVariant
           [StepEvent (HeartRateNotification (Some [Byte.x00; Byte.x48]) 1800);
            StepEvent PressLap; StepEffect 1900] runningExample).
  repeat constructor; discriminate.
Defined.

(** X15: the Activity is not final at the stop.  In a stopped recorder that
    has data, a heart-rate notification that parses, followed by the timer
    effect that its render brings, builds the Activity anew: it has the new
    sample at the end of its heart rates and the clock of that effect as its
    end time. *)
Theorem activity_rebuilt_after_stop (s : State) (value : list Byte.byte)
        (rate now1 now2 : Z) :
  isRunning s = false -> timerRef s = true ->
  0 < time s -> positions s <> [] ->
  decodeHeartRate value = Some rate ->
  exists a,
    activity (timerEffect now2 (onHeartRate (Some value) now1 s)) = Some a
    /\ heartRates a = heartRateData s ++ [mkHeartRateData now1 rate]
    /\ endTime a = now2
    /\ act_positions a = positions s
    /\ totalTime a = time s.
Proof.
  intros Hrun Htimer Htime Hpos Hdec.
  unfold onHeartRate. rewrite Hdec. unfold timerEffect.
  cbn [isRunning timerRef time positions set_heartRateData set_currentHeartRate].
  rewrite Hrun, Htimer.
  apply Z.ltb_lt in Htime. rewrite Htime.
  replace (0 <? List.length (positions s))%nat with true
    by (symmetry; apply Nat.ltb_lt; destruct (positions s);
        [contradiction|simpl; lia]).
  cbn [andb]. eexists. split; [reflexivity|]. repeat split.
Qed.

Lemma activity_rebuilt_after_stop_witness :
  exists a,
    activity (timerEffect 9000
                (onHeartRate (Some [Byte.x00; Byte.x48]) 8000
                   (timerEffect 2500 (startStop runningExample)))) = Some a
    /\ heartRates a = [mkHeartRateData 8000 72]
    /\ endTime a = 9000.
Proof.
  destruct (@activity_rebuilt_after_stop
              (timerEffect 2500 (startStop runningExample))
              [Byte.x00; Byte.x48] 72 8000 9000
              eq_refl eq_refl eq_refl ltac:(discriminate) eq_refl)
    as [a [Ha [Hh [He _]]]].
  exists a. split; [exact Ha|]. split; [exact Hh|exact He].
Defined.

(** ** The pace and the clock on display *)



(** X17: the elapsed time on display, for a counter that is not negative:
    hours, minutes and seconds that add up to the counter, the minutes and
    the seconds below 60; with no full hour it reads minutes, a colon and
    two digits of seconds, and from one hour on hours, two digits of minutes
    and two digits of seconds. *)
Theorem formatTime_fields (seconds : Z) :
  0 <= seconds ->
  let hrs := seconds / 3600 in
  let mins := (seconds / 60) mod 60 in
  let secs := seconds mod 60 in
  seconds = hrs * 3600 + mins * 60 + secs
  /\ 0 <= mins < 60 /\ 0 <= secs < 60
  /\ formatTime seconds
     = if 0 <? hrs
       then (Js.toString hrs ++ ":" ++ twoDigits mins ++ ":" ++ twoDigits secs)%string
       else (Js.toString mins ++ ":" ++ twoDigits secs)%string.
Proof.
  intros Hs. cbv zeta.
  pose proof (Z.mod_pos_bound (seconds / 60) 60 ltac:(lia)) as Hm.
  pose proof (Z.mod_pos_bound seconds 60 ltac:(lia)) as Hsec.
  assert (Hmins : Z.rem seconds 3600 / 60 = (seconds / 60) mod 60).
  { rewrite Z.rem_mod_nonneg by lia.
    symmetry. apply Z.div_unique with (seconds mod 60); [lia|].
    assert (H3 : seconds / 60 / 60 = seconds / 3600)
      by (rewrite Z.div_div by lia; reflexivity).
    rewrite (Z.mod_eq seconds 3600), (Z.mod_eq (seconds / 60) 60),
      (Z.mod_eq seconds 60) by lia.
    lia. }
  assert (Hsecs : Z.rem seconds 60 = seconds mod 60)
    by (apply Z.rem_mod_nonneg; lia).
  assert (Hsum : seconds = seconds / 3600 * 3600 + (seconds / 60) mod 60 * 60
                           + seconds mod 60).
  { pose proof (Z.div_mod seconds 60 ltac:(lia)) as H1.
    pose proof (Z.div_mod (seconds / 60) 60 ltac:(lia)) as H2.
    assert (H3 : seconds / 60 / 60 = seconds / 3600)
      by (rewrite Z.div_div by lia; reflexivity).
    lia. }
  split; [exact Hsum|]. split; [exact Hm|]. split; [exact Hsec|].
  unfold formatTime. cbv zeta. rewrite Hmins, Hsecs.
  rewrite !padStart_two_digits by lia.
  reflexivity.
Qed.

Lemma formatTime_fields_witness :
  formatTime 3725 = "1:02:05"%string /\ formatTime 20 = "0:20"%string.
Proof.
  split.
  - destruct (@formatTime_fields 3725 ltac:(lia)) as [_ [_ [_ H]]]. exact H.
  - destruct (@formatTime_fields 20 ltac:(lia)) as [_ [_ [_ H]]]. exact H.
Defined.

(** ** The altitude of a fix *)

(** X18: a fix is recorded without altitude exactly when the service gives
    none or gives 0: a fix at sea level loses its altitude (the source
    writes [altitude || undefined]), and every altitude that is recorded is
    the one given and is not 0; the same holds of the altitude accuracy. *)
Theorem newPositionOf_altitude (position : GeolocationPosition) :
  (altitude (newPositionOf position) = None
   <-> coords_altitude position = None \/ coords_altitude position = Some 0%R)
  /\ (forall alt, altitude (newPositionOf position) = Some alt
                  <-> coords_altitude position = Some alt /\ alt <> 0%R)
  /\ (altitude_accuracy (newPositionOf position) = None
      <-> coords_altitudeAccuracy position = None
          \/ coords_altitudeAccuracy position = Some 0%R)
  /\ latitude (newPositionOf position) = coords_latitude position
  /\ longitude (newPositionOf position) = coords_longitude position
  /\ timestamp (newPositionOf position) = geo_timestamp position.
Proof.
  assert (H : forall x,
             (orUndefined x = None <-> x = None \/ x = Some 0%R)
             /\ (forall alt, orUndefined x = Some alt <-> x = Some alt /\ alt <> 0%R)).
  { intros [x|]; unfold orUndefined.
    - destruct (Req_EM_T x 0) as [->|Hne].
      + split; [split; [intros _; right; reflexivity|reflexivity]|].
        intros alt. split; [discriminate|].
        intros [E Hne]. injection E as <-. contradiction.
      + split.
        * split; [discriminate|]. intros [E|E]; [discriminate|].
          injection E as ->. contradiction.
        * intros alt. split.
          -- intros E. injection E as <-. split; [reflexivity|exact Hne].
          -- intros [E _]. exact E.
    - split; [split; [intros _; left; reflexivity|reflexivity]|].
      intros alt. split; [discriminate|intros [E _]; discriminate]. }
  unfold newPositionOf. cbn [altitude altitude_accuracy latitude longitude timestamp].
  split; [apply H|]. split; [apply H|]. split; [apply H|].
  repeat split.
Qed.

(** ** The GPX document and the heart rates out of reach *)

Lemma findClosestHeartRate_far (heartRates : list HeartRateData) (timestamp : Z) :
  (forall h, In h heartRates -> 10000 < hrDiff timestamp h) ->
  findClosestHeartRate heartRates timestamp = None.
Proof.
  intros Hfar. destruct heartRates as [|first rest]; [reflexivity|].
  destruct (findClosestHeartRate_scan first rest timestamp)
    as [i [h [[Hi _] ->]]].
  pose proof (Hfar h (nth_error_In _ _ Hi)) as Hh.
  destruct (Z.leb_spec (hrDiff timestamp h) 10000); [lia|reflexivity].
Qed.

Lemma fold_appendTrackPoint_far (numberToString : R -> string)
      (toISOString : Z -> string) (heartRates : list HeartRateData)
      (l : list Position) (gpx : string) :
  (forall pos h, In pos l -> In h heartRates ->
                 10000 < hrDiff (timestamp pos) h) ->
  fold_left (appendTrackPoint numberToString toISOString heartRates) l gpx
  = fold_left (appendTrackPoint numberToString toISOString []) l gpx.
Proof.
  revert gpx. induction l as [|pos l IH]; intros gpx Hfar; [reflexivity|].
  cbn [fold_left].
  rewrite IH by (intros q h Hq Hh; apply Hfar; [right; exact Hq|exact Hh]).
  f_equal. unfold appendTrackPoint. cbv zeta.
  rewrite (@findClosestHeartRate_far heartRates (timestamp pos))
    by (intros h Hh; apply Hfar; [left; reflexivity|exact Hh]).
  reflexivity.
Qed.

(** X19: heart-rate samples that are all more than 10,000 ms from every fix
    leave no trace in the document: it is the document of the same Activity
    without heart rates; and the document is made of the start time, the
    fixes and the heart rates alone, whatever the laps, the totals and the
    end time are. *)
Theorem generateGPX_far_heartRates (numberToString : R -> string)
        (toISOString : Z -> string) (a : Activity) :
  (forall pos h, In pos (act_positions a) -> In h (heartRates a) ->
                 10000 < hrDiff (timestamp pos) h) ->
  forall endTime' totalTime' totalDistance' laps',
    generateGPX numberToString toISOString a
    = generateGPX numberToString toISOString
        (mkActivity (startTime a) endTime' totalTime' totalDistance'
                    (act_positions a) [] laps').
Proof.
  intros Hfar endTime' totalTime' totalDistance' laps'.
  unfold generateGPX. cbv zeta.
  cbn [startTime act_positions heartRates]. f_equal.
  apply fold_appendTrackPoint_far. exact Hfar.
Qed.

Lemma generateGPX_far_heartRates_witness :
  generateGPX (fun _ => "0"%string) (fun _ => "T"%string)
    (mkActivity 0 50000 50 0%R
       [mkPosition 0 0 None None None None 40000]
       [mkHeartRateData 5000 61] [])
  = generateGPX (fun _ => "0"%string) (fun _ => "T"%string)
      (mkActivity 0 50000 50 0%R
         [mkPosition 0 0 None None None None 40000] [] []).
Proof.
  apply (@generateGPX_far_heartRates (fun _ => "0"%string) (fun _ => "T"%string)
           (mkActivity 0 50000 50 0%R
              [mkPosition 0 0 None None None None 40000]
              [mkHeartRateData 5000 61] [])).
  - intros pos h [<-|[]] [<-|[]]. unfold hrDiff. simpl. lia.
Defined.

(** ** The geolocation effect and the turns of the interval *)

(** X20: the watch of a recorder that is started, after an effect that ran
    on a stopped recorder without a watch or never ran.  The effect
    registers the watch and the next render commits with nothing to do.
    Then the interval turns: in the tabbed variant, whose effect does not
    depend on the counter, the watch stays registered; in the smoothed
    variant, whose effect depends on [time], the cleanup of the last run
    clears the watch and the body, which still finds its identifier in
    [watchId], registers no other: the recorder runs on without a watch. *)
Theorem watch_after_first_tick (s : State) (lastTime : option Z)
        (id id2 id3 : positive) :
  isRunning s = true -> watchId s = None ->
  let last := option_map (mkEffectRun false None) lastTime in
  (let s' := startThenTick TabbedVariant last id id2 id3 s in
   isRunning s' = true /\ watchId s' = Some id
   /\ geoWatches s' = id :: geoWatches s)
  /\ (let s' := startThenTick SmoothedVariant last id id2 id3 s in
      isRunning s' = true /\ watchId s' = Some id
      /\ geoWatches s' = remove Pos.eq_dec id (geoWatches s)
      /\ ~ In id (geoWatches s')).
Proof.
  intros Hrun Hwatch. destruct s. cbn in Hrun, Hwatch. subst. cbv zeta.
  assert (Htime : (time0 =? time0 + 1) = false) by (apply Z.eqb_neq; lia).
  assert (Hremove : forall l, remove Pos.eq_dec id (id :: l) = remove Pos.eq_dec id l).
  { intros l. cbn [remove]. destruct (Pos.eq_dec id id); [reflexivity|contradiction]. }
  split.
  - unfold startThenTick, commitGeolocation, depsChanged, geolocationEffect,
      geolocationCleanup, tick.
    destruct lastTime as [t|]; cbn; rewrite Pos.eqb_refl; cbn; repeat split.
  - unfold startThenTick, commitGeolocation, depsChanged, geolocationEffect,
      geolocationCleanup, clearWatch, tick.
    destruct lastTime as [t|]; cbn -[remove]; rewrite Pos.eqb_refl, Htime;
      cbn -[remove]; rewrite Hremove;
      (split; [reflexivity|split; [reflexivity|split; [reflexivity|apply remove_In]]]).
Qed.

Lemma watch_after_first_tick_witness :
  geoWatches
    (startThenTick SmoothedVariant None 1 2 3
       (handle SmoothedVariant PressStartStop initialState)) = []
  /\ geoWatches
       (startThenTick TabbedVariant None 1 2 3
          (handle TabbedVariant PressStartStop initialState)) = [1%positive].
Proof.
  destruct (@watch_after_first_tick
              (handle SmoothedVariant PressStartStop initialState) None 1 2 3
              eq_refl eq_refl) as [[_ [_ Ht]] [_ [_ [Hs _]]]].
  split; [exact Hs|exact Ht].
Defined.

(** ** Counting the steps of a session *)

Lemma perform_counts (v : Variant) (step : Step) (s : State) :
  step <> StepEvent PressReset ->
  time (perform v step s) = time s + (if isTickStep step then 1 else 0)
  /\ List.length (positions (perform v step s))
     = (List.length (positions s) + (if isFixStep step then 1 else 0))%nat.
Proof.
  intros Hstep. destruct step as [e|now]; cbn [perform].
  - destruct e; try cbn [handle]; cbn [isTickStep isFixStep].
    + split; simpl; lia.
    + unfold recordLap. destruct (negb (isRunning s)); split; simpl; lia.
    + contradiction.
    + split; simpl; lia.
    + destruct (PositionFix_shape v time0 now position s) as [p [l [r E]]].
      cbn [handle] in E. rewrite E.
      destruct (fixSansPace_frame position s) as [Hp [_ [_ [Ht _]]]].
      through_paceCells. rewrite Hp, Ht, length_app. simpl. lia.
    + split; simpl; lia.
    + unfold onHeartRate. destruct value as [b|]; [|split; simpl; lia].
      destruct (decodeHeartRate b); split; simpl; lia.
  - cbn [isTickStep isFixStep]. unfold timerEffect.
    destruct (isRunning s); [destruct (startTimeRef s); split; simpl; lia|].
    destruct (timerRef s); [|split; simpl; lia].
    destruct (_ && _); split; simpl; lia.
Qed.

(** X21: in a stretch of a session without a reset the seconds counter goes
    up by the number of turns of the interval and by nothing else, and the
    number of fixes goes up by the number of fixes delivered: every fix that
    is delivered is recorded, whether the recorder runs or not. *)
Theorem session_counts (v : Variant) (steps : list Step) (s : State) :
  noReset steps ->
  time (session v steps s)
  = time s + Z.of_nat (List.length (filter isTickStep steps))
  /\ List.length (positions (session v steps s))
     = (List.length (positions s) + List.length (filter isFixStep steps))%nat.
Proof.
  intros Hno. unfold session. revert s.
  induction Hno as [|step steps Hstep _ IH]; intros s.
  - cbn. split; lia.
  - cbn [fold_left filter].
    destruct (IH (perform v step s)) as [Ht Hp].
    destruct (perform_counts v s Hstep) as [Ht1 Hp1].
    rewrite Ht, Hp, Ht1, Hp1.
    destruct (isTickStep step); destruct (isFixStep step); cbn [List.length];
      split; lia.
Qed.

Lemma session_counts_witness :
  time (session TabbedVariant
          [StepEvent IntervalTick; StepEvent PressLap; StepEvent IntervalTick]
          runningExample)
  = time runningExample + 2.
Proof.
  apply (@session_counts TabbedVariant
           [StepEvent IntervalTick; StepEvent PressLap; StepEvent IntervalTick]
           runningExample).
  repeat constructor; discriminate.
Defined.

(** ** The distances of the laps *)

Lemma lapOverPrefix_snoc (fixes : list Position) (p : Position) (lap : Lap) :
  lapOverPrefix fixes lap -> lapOverPrefix (fixes ++ [p]) lap.
Proof.
  intros [n [Hn E]]. exists n. split.
  - rewrite length_app. simpl. lia.
  - rewrite firstn_app.
    replace (n - List.length fixes)%nat with O by lia.
    cbn [firstn]. rewrite app_nil_r. exact E.
Qed.

(** X22: in every session each lap carries the total distance over the
    first fixes of the recorded sequence, for some number of them that
    leaves out the last fix at least: a lap takes the distance on display,
    which runs one fix behind, and the fixes that come later are appended
    after those it was taken over. *)
Theorem lap_distance_over_prefix (v : Variant) (steps : list Step) :
  Forall (lapOverPrefix (positions (session v steps initialState)))
         (laps (session v steps initialState)).
Proof.
  assert (Hinit : (distance initialState
                   = calculateTotalDistance (removelast (positions initialState))
                   /\ lastPositionsRef initialState = positions initialState)
                  /\ Forall (lapOverPrefix (positions initialState))
                            (laps initialState))
    by (split; [split; reflexivity|constructor]).
  refine (proj2 (@session_invariant v
            (fun s => (distance s
                       = calculateTotalDistance (removelast (positions s))
                       /\ lastPositionsRef s = positions s)
                      /\ Forall (lapOverPrefix (positions s)) (laps s))
            Hinit _ steps)).
  intros step s [Hdist Hlaps].
  split; [apply distance_step; exact Hdist|].
  destruct Hdist as [Hd _].
  destruct step as [e|now]; cbn [perform].
  - destruct e; try cbn [handle].
    + exact Hlaps.
    + unfold recordLap. destruct (negb (isRunning s)); [exact Hlaps|].
      cbv zeta. cbn [laps positions set_laps].
      apply Forall_app. split; [exact Hlaps|].
      constructor; [|constructor].
      exists (List.length (positions s) - 1)%nat. split; [lia|].
      cbn [lap_distance]. rewrite Hd, removelast_firstn_len, Nat.sub_1_r.
      reflexivity.
    + destruct v; constructor.
    + exact Hlaps.
    + destruct (PositionFix_shape v time0 now position s) as [p [l [r E]]].
      cbn [handle] in E. rewrite E.
      destruct (fixSansPace_frame position s) as [Hp [Hl _]].
      through_paceCells. rewrite Hp, Hl.
      apply Forall_impl with (P := lapOverPrefix (positions s));
        [|exact Hlaps].
      intros lap. apply lapOverPrefix_snoc.
    + exact Hlaps.
    + unfold onHeartRate. destruct value as [b|]; [|exact Hlaps].
      destruct (decodeHeartRate b); exact Hlaps.
  - unfold timerEffect.
    destruct (isRunning s); [destruct (startTimeRef s); exact Hlaps|].
    destruct (timerRef s); [|exact Hlaps]. destruct (_ && _); exact Hlaps.
Qed.
